(** * ViajaAI: itinerary reducer, persistence and assistant bridge

    A shallow embedding of the state logic of the trip planner
    (src/types.ts, src/App.tsx, the chat panel and the assistant service)
    together with the properties its specification states.

    Conventions of the embedding.
    - JavaScript numbers are modelled by integers ([Z]); the only arithmetic
      the modelled code performs on them is the addition of costs.
    - An optional property [x?: T] is an [option T]; [None] reads as
      [undefined].
    - A computation that may throw returns a [completion]; the state
      updaters of the three handlers are such computations.
    - Built-ins whose behaviour depends on the host ([localeCompare], the
      time zone, [JSON.parse], [JSON.stringify], [fetch]) are parameters. *)

From Stdlib Require Import ZArith Lia Bool Ascii String.
From stdpp Require Import base tactics option list sorting strings gmap pretty.

Set Warnings "-register-all".

Local Open Scope string_scope.
Local Open Scope Z_scope.
Local Open Scope list_scope.

(** ** Data model (src/types.ts) *)

Inductive ActivityType := SIGHTSEEING | FOOD | TRANSPORT | LODGING | OTHER.

(** An activity as it may be at run time.  src/types.ts declares [id],
    [time], [title] and [type] as required, yet an object that was built by
    spreading a [Partial<Activity>] holds [undefined] for a required
    property whose key was present with that value (see [spread]); so
    every field is optional here. *)
Module Activity.
Record t := mk {
  id : option string;
  time : option string;
  title : option string;
  location : option string;
  lat : option Z;
  lng : option Z;
  notes : option string;
  cost : option Z;
  type : option ActivityType
}.
End Activity.

Module ItineraryDay.
Record t := mk {
  id : string;
  date : string;
  activities : list Activity.t
}.
End ItineraryDay.

Module Trip.
Record t := mk {
  id : string;
  title : string;
  destination : string;
  startDate : string;
  endDate : string;
  days : list ItineraryDay.t;
  coverImage : option string;
  lat : option Z;
  lng : option Z
}.
End Trip.

(** [Partial<Activity>]: every key may be absent ([None]), or present and
    hold [undefined] ([Some None]) or a value of its type; a present key
    counts when the object is spread over another one, whatever it holds. *)
Module PartialActivity.
Record t := mk {
  id : option (option string);
  time : option (option string);
  title : option (option string);
  location : option (option string);
  lat : option (option Z);
  lng : option (option Z);
  notes : option (option string);
  cost : option (option Z);
  type : option (option ActivityType)
}.

Definition empty : t := mk None None None None None None None None None.
End PartialActivity.

(** [{ ...a, ...updates }]: every key present in [updates] overrides. *)
Definition spread (a : Activity.t) (updates : PartialActivity.t) : Activity.t :=
  {| Activity.id := default (Activity.id a) (PartialActivity.id updates);
     Activity.time := default (Activity.time a) (PartialActivity.time updates);
     Activity.title := default (Activity.title a) (PartialActivity.title updates);
     Activity.location :=
       default (Activity.location a) (PartialActivity.location updates);
     Activity.lat := default (Activity.lat a) (PartialActivity.lat updates);
     Activity.lng := default (Activity.lng a) (PartialActivity.lng updates);
     Activity.notes := default (Activity.notes a) (PartialActivity.notes updates);
     Activity.cost := default (Activity.cost a) (PartialActivity.cost updates);
     Activity.type := default (Activity.type a) (PartialActivity.type updates) |}.

(** [{ ...day, activities: acts }] and [{ ...trip, days: ds }]. *)
Definition with_activities (day : ItineraryDay.t) (acts : list Activity.t)
  : ItineraryDay.t :=
  {| ItineraryDay.id := ItineraryDay.id day;
     ItineraryDay.date := ItineraryDay.date day;
     ItineraryDay.activities := acts |}.

Definition with_days (trip : Trip.t) (ds : list ItineraryDay.t) : Trip.t :=
  {| Trip.id := Trip.id trip;
     Trip.title := Trip.title trip;
     Trip.destination := Trip.destination trip;
     Trip.startDate := Trip.startDate trip;
     Trip.endDate := Trip.endDate trip;
     Trip.days := ds;
     Trip.coverImage := Trip.coverImage trip;
     Trip.lat := Trip.lat trip;
     Trip.lng := Trip.lng trip |}.

(** [trip.id !== selectedTripId], where [selectedTripId : string | null]. *)
Definition is_selected (selectedTripId : option string) (trip : Trip.t) : bool :=
  match selectedTripId with
  | Some s => String.eqb (Trip.id trip) s
  | None => false
  end.

(** ** Computations that may throw *)

(** Completion of a computation that may throw. *)
Inductive completion (A : Type) :=
| Normal (a : A)
| Throw (message : string).
Arguments Normal {A} a.
Arguments Throw {A} message.

Definition bind {A B} (c : completion A) (k : A -> completion B) : completion B :=
  match c with
  | Normal a => k a
  | Throw m => Throw m
  end.

Notation "'let*' x ':=' c 'in' k" := (bind c (fun x => k))
  (at level 10, x name, c at level 100, k at level 200).

(** [Array.prototype.map] with a callback that may throw: the elements are
    visited in order and the first exception ends the call. *)
Fixpoint Array_map {A B} (f : A -> completion B) (l : list A)
  : completion (list B) :=
  match l with
  | [] => Normal []
  | x :: l' =>
      let* y := f x in
      let* ys := Array_map f l' in
      Normal (y :: ys)
  end.

(** ** [Array.prototype.sort] with a comparator

    The sort is stable (ECMAScript 2019), so for a consistent comparator its
    result is the one stable sorted arrangement of the array.  Which calls
    of the comparator are made is left to the implementation; the model
    sorts by insertion, comparing each element with the ones already in
    place before it, from the last one down, the element itself being the
    first argument.  V8 (Chrome, Node) passes the later element first as
    well, and on an array that is in order it makes exactly these calls.
    A negative result puts the element before the one it was compared
    with; an exception of the comparator ends the sort. *)
Section ArraySort.
Context {A : Type} (comparefn : A -> A -> completion Z).

(** [placed] holds the elements already in place, the last one first. *)
Fixpoint sort_insert (x : A) (placed : list A) : completion (list A) :=
  match placed with
  | [] => Normal [x]
  | y :: placed' =>
      let* order := comparefn x y in
      if order <? 0 then
        let* placed'' := sort_insert x placed' in
        Normal (y :: placed'')
      else Normal (x :: placed)
  end.

Fixpoint sort_loop (l : list A) (placed : list A) : completion (list A) :=
  match l with
  | [] => Normal (rev placed)
  | x :: l' =>
      let* placed' := sort_insert x placed in
      sort_loop l' placed'
  end.

Definition Array_sort (l : list A) : completion (list A) := sort_loop l [].
End ArraySort.

(** ** Itinerary reducer (src/App.tsx) *)

(** [a.id === activityId], each side a string or [undefined]. *)
Definition same_id (id activityId : option string) : bool :=
  match id, activityId with
  | Some a, Some b => String.eqb a b
  | None, None => true
  | _, _ => false
  end.

(** The argument of [localeCompare] is converted to a string. *)
Definition time_text (a : Activity.t) : string :=
  match Activity.time a with
  | Some time => time
  | None => "undefined"
  end.

Section Reducer.
(** [String.prototype.localeCompare]: negative, zero or positive. *)
Variable localeCompare : string -> string -> Z.

(** The comparator of both sorts: [(a, b) => a.time.localeCompare(b.time)].
    Reading [localeCompare] of [undefined] throws a [TypeError]. *)
Definition byTime (a b : Activity.t) : completion Z :=
  match Activity.time a with
  | Some time => Normal (localeCompare time (time_text b))
  | None =>
      Throw "Cannot read properties of undefined (reading 'localeCompare')"
  end.

(** The activity built by [handleAddActivity]; [freshId] stands for
    [Date.now().toString() + Math.random().toString().slice(2,5)], and
    [activityData] is [None] when the argument is omitted. *)
Definition newActivity (freshId : string)
    (activityData : option PartialActivity.t) : Activity.t :=
  spread
    {| Activity.id := Some freshId;
       Activity.time := Some "12:00";
       Activity.title := Some "Nova Atividade";
       Activity.location := None;
       Activity.lat := None;
       Activity.lng := None;
       Activity.notes := None;
       Activity.cost := Some 0;
       Activity.type := Some OTHER |}
    (default PartialActivity.empty activityData).

(** The updater passed to [setTrips] by [handleAddActivity]. *)
Definition handleAddActivity (selectedTripId : option string)
    (freshId : string) (dayId : string)
    (activityData : option PartialActivity.t)
    (prevTrips : list Trip.t) : completion (list Trip.t) :=
  Array_map (fun trip =>
    if negb (is_selected selectedTripId trip) then Normal trip
    else
      let* updatedDays := Array_map (fun day =>
        if String.eqb (ItineraryDay.id day) dayId then
          let* sorted :=
            Array_sort byTime
              (ItineraryDay.activities day
                 ++ [newActivity freshId activityData]) in
          Normal (with_activities day sorted)
        else Normal day) (Trip.days trip) in
      Normal (with_days trip updatedDays)) prevTrips.

(** The updater passed to [setTrips] by [handleDeleteActivity]; nothing in
    it can throw.  [activityId] may be [undefined] at run time, as it is
    when [handleSaveActivityUI] passes the id of an activity without one. *)
Definition handleDeleteActivity (selectedTripId : option string)
    (dayId : string) (activityId : option string)
    (prevTrips : list Trip.t) : list Trip.t :=
  List.map (fun trip =>
    if negb (is_selected selectedTripId trip) then trip
    else
      let updatedDays := List.map (fun day =>
        if String.eqb (ItineraryDay.id day) dayId then
          with_activities day
            (List.filter
               (fun a => negb (same_id (Activity.id a) activityId))
               (ItineraryDay.activities day))
        else day) (Trip.days trip) in
      with_days trip updatedDays) prevTrips.

(** The updater passed to [setTrips] by [handleUpdateActivity]. *)
Definition handleUpdateActivity (selectedTripId : option string)
    (dayId : string) (activityId : option string)
    (updates : PartialActivity.t)
    (prevTrips : list Trip.t) : completion (list Trip.t) :=
  Array_map (fun trip =>
    if negb (is_selected selectedTripId trip) then Normal trip
    else
      let* updatedDays := Array_map (fun day =>
        if String.eqb (ItineraryDay.id day) dayId then
          let newActivities := List.map (fun a =>
            if same_id (Activity.id a) activityId
            then spread a updates else a)
            (ItineraryDay.activities day) in
          let* sorted := Array_sort byTime newActivities in
          Normal (with_activities day sorted)
        else Normal day) (Trip.days trip) in
      Normal (with_days trip updatedDays)) prevTrips.

(** One user or assistant action on the itinerary, with the trip selected
    when it is issued. *)
Inductive action :=
| AddActivity (freshId dayId : string) (activityData : option PartialActivity.t)
| UpdateActivity (dayId : string) (activityId : option string)
    (updates : PartialActivity.t)
| DeleteActivity (dayId : string) (activityId : option string).

Definition run_action (step : option string * action)
    (trips : list Trip.t) : completion (list Trip.t) :=
  match step with
  | (sel, AddActivity freshId dayId data) =>
      handleAddActivity sel freshId dayId data trips
  | (sel, UpdateActivity dayId activityId updates) =>
      handleUpdateActivity sel dayId activityId updates trips
  | (sel, DeleteActivity dayId activityId) =>
      Normal (handleDeleteActivity sel dayId activityId trips)
  end.

(** A sequence of actions; the first exception ends it. *)
Fixpoint run_actions (steps : list (option string * action))
    (trips : list Trip.t) : completion (list Trip.t) :=
  match steps with
  | [] => Normal trips
  | step :: steps' =>
      let* trips' := run_action step trips in
      run_actions steps' trips'
  end.

(** The time key of the data of a call, when present, holds a string. *)
Definition data_timed (activityData : option PartialActivity.t) : Prop :=
  match activityData with
  | Some data => PartialActivity.time data <> Some None
  | None => True
  end.

Definition action_timed (a : action) : Prop :=
  match a with
  | AddActivity _ _ activityData => data_timed activityData
  | UpdateActivity _ _ updates => data_timed (Some updates)
  | DeleteActivity _ _ => True
  end.

(** The sort invariant: every activity of a day has a time, and the
    comparator, called as the sort calls it (the later activity first),
    never asks for an activity to move before its predecessor. *)
Definition timed (a : Activity.t) : Prop := is_Some (Activity.time a).

Definition time_le (a b : Activity.t) : Prop :=
  exists order, byTime b a = Normal order /\ 0 <= order.

Definition day_sorted (day : ItineraryDay.t) : Prop :=
  Forall timed (ItineraryDay.activities day)
  /\ Sorted time_le (ItineraryDay.activities day).

Definition trip_sorted (trip : Trip.t) : Prop :=
  Forall day_sorted (Trip.days trip).
End Reducer.

(** ** Cost aggregation (src/App.tsx) *)

(** [trips.find(t => t.id === selectedTripId) || trips[0]]. *)
Definition selectedTrip (trips : list Trip.t) (selectedTripId : option string)
  : option Trip.t :=
  match List.find (is_selected selectedTripId) trips with
  | Some trip => Some trip
  | None => head trips
  end.

(** [x || 0] on a number, and on an optional number. *)
Definition or_zero (x : Z) : Z := if x =? 0 then 0 else x.

Definition opt_or_zero (x : option Z) : Z :=
  match x with
  | Some n => or_zero n
  | None => 0
  end.

(** [calculateTotalCost], a function of the selected trip
    ([None] when there is no trip at all). *)
Definition calculateTotalCost (selected : option Trip.t) : Z :=
  match selected with
  | None => 0
  | Some trip =>
      or_zero
        (fold_left (fun total day =>
           total + or_zero
             (fold_left (fun dayTotal act =>
                dayTotal + opt_or_zero (Activity.cost act))
                (ItineraryDay.activities day) 0))
           (Trip.days trip) 0)
  end.

(** The sum the specification speaks of: every activity of every day, an
    absent cost counting for zero. *)
Definition all_activities (trip : Trip.t) : list Activity.t :=
  concat (List.map ItineraryDay.activities (Trip.days trip)).

Definition cost_sum (acts : list Activity.t) : Z :=
  foldr (fun act acc => default 0 (Activity.cost act) + acc) 0 acts.

(** ** Dates (the [Date] built-in)

    A time value is a number of milliseconds since the epoch; [None] is an
    invalid date (NaN).  Days are numbered from 1970-01-01 in the proleptic
    Gregorian calendar. *)

Definition msPerDay : Z := 86400000.

(** Day number of the civil date [y]-[m]-[d] ([m] from 1 to 12). *)
Definition days_from_civil (y m d : Z) : Z :=
  let y' := if m <=? 2 then y - 1 else y in
  let era := y' / 400 in
  let yoe := y' - era * 400 in
  let mp := if 2 <? m then m - 3 else m + 9 in
  let doy := (153 * mp + 2) / 5 + d - 1 in
  let doe := yoe * 365 + yoe / 4 - yoe / 100 + doy in
  era * 146097 + doe - 719468.

(** Civil date (year, month from 1 to 12, day of the month) of a day number. *)
Definition civil_from_days (z : Z) : Z * Z * Z :=
  let z' := z + 719468 in
  let era := z' / 146097 in
  let doe := z' mod 146097 in
  let yoe := (doe - doe / 1460 + doe / 36524 - doe / 146096) / 365 in
  let doy := doe - (365 * yoe + yoe / 4 - yoe / 100) in
  let mp := (5 * doy + 2) / 153 in
  let d := doy - (153 * mp + 2) / 5 + 1 in
  let m := if mp <? 10 then mp + 3 else mp - 9 in
  let y := yoe + era * 400 in
  (if m <=? 2 then y + 1 else y, m, d).

(** [MakeDay(year, month, date)] of ECMAScript, [month] counted from 0. *)
Definition MakeDay (year month date : Z) : Z :=
  let ym := year + month / 12 in
  let mn := month mod 12 in
  days_from_civil ym (mn + 1) 1 + date - 1.

(** Decimal digits, and a number left-padded with zeros to [width]. *)
Definition digit_of_ascii (c : ascii) : option Z :=
  let n := Z.of_N (N_of_ascii c) in
  if (48 <=? n) && (n <=? 57) then Some (n - 48) else None.

Definition pad (width : nat) (n : Z) : string :=
  let s := pretty n in
  String.string_of_list_ascii
    (replicate (width - String.length s)%nat "0"%char) +:+ s.

(** The date part of [toISOString()]: four digits for the years 0 to 9999,
    a sign and six digits otherwise. *)
Definition iso_date_of_days (z : Z) : string :=
  let '(y, m, d) := civil_from_days z in
  let year :=
    if (0 <=? y) && (y <=? 9999) then pad 4 y
    else (if y <? 0 then "-" else "+") +:+ pad 6 (Z.abs y) in
  year +:+ "-" +:+ pad 2 m +:+ "-" +:+ pad 2 d.

(** [new Date(s)] for a date-only string [YYYY-MM-DD], which is what the
    date inputs of the new-trip form yield.  ECMAScript reads the date-only
    form as a UTC time, so the result is midnight UTC of that date.  Any
    other text, and a date that is not in the calendar, is taken as an
    invalid date. *)
Definition Date_parse (s : string) : option Z :=
  match String.list_ascii_of_string s with
  | [y1; y2; y3; y4; sep1; m1; m2; sep2; d1; d2] =>
      match digit_of_ascii y1, digit_of_ascii y2, digit_of_ascii y3,
            digit_of_ascii y4, digit_of_ascii m1, digit_of_ascii m2,
            digit_of_ascii d1, digit_of_ascii d2 with
      | Some a, Some b, Some c, Some e, Some f, Some g, Some h, Some i =>
          let y := 1000 * a + 100 * b + 10 * c + e in
          let m := 10 * f + g in
          let d := 10 * h + i in
          if Ascii.eqb sep1 "-" && Ascii.eqb sep2 "-"
             && (1 <=? m) && (m <=? 12) && (1 <=? d)
             && bool_decide (civil_from_days (days_from_civil y m d) = (y, m, d))
          then Some (days_from_civil y m d * msPerDay)
          else None
      | _, _, _, _, _, _, _, _ => None
      end
  | _ => None
  end.

Section LocalTime.
(** Offset of local time from UTC in milliseconds (UTC-3 is [-10800000]);
    the zone is taken to have one offset throughout. *)
Variable tz : Z.

Definition local_civil (t : Z) : Z * Z * Z :=
  civil_from_days ((t + tz) / msPerDay).

Definition getFullYear (t : option Z) : option Z :=
  match t with Some t => Some (local_civil t).1.1 | None => None end.

Definition getMonth (t : option Z) : option Z :=
  match t with Some t => Some ((local_civil t).1.2 - 1) | None => None end.

Definition getDate (t : option Z) : option Z :=
  match t with Some t => Some (local_civil t).2 | None => None end.

(** [new Date(year, month, date, hours, minutes, seconds)]: the fields are
    those of a local time, and a year from 0 to 99 stands for 1900 + year
    (ECMAScript, the Date constructor: "if 0 <= yi <= 99, let yr be
    1900 + yi"). *)
Definition Date_local (year month date : option Z) (hours minutes seconds : Z)
  : option Z :=
  match year, month, date with
  | Some y, Some m, Some d =>
      let yr := if (0 <=? y) && (y <=? 99) then 1900 + y else y in
      Some (MakeDay yr m d * msPerDay
            + hours * 3600000 + minutes * 60000 + seconds * 1000 - tz)
  | _, _, _ => None
  end.

(** [current.setDate(dt)]: the day of the month is replaced in local time,
    the time of day is kept. *)
Definition setDate (t : Z) (dt : Z) : Z :=
  let local := t + tz in
  let '(y, m, _) := civil_from_days (local / msPerDay) in
  MakeDay y (m - 1) dt * msPerDay + local mod msPerDay - tz.

(** [current.toISOString().split('T')[0]]. *)
Definition toISODate (t : Z) : string := iso_date_of_days (t / msPerDay).

(** The [while (current <= endLimit)] loop of [generateDays]; a comparison
    with an invalid date is false.  [None] when [fuel] iterations do not
    reach the end of the loop. *)
Fixpoint generateDays_loop (fuel : nat) (current endLimit : option Z)
    (days : list ItineraryDay.t) : option (list ItineraryDay.t) :=
  match fuel with
  | O => None
  | S fuel' =>
      match current, endLimit with
      | Some c, Some e =>
          if c <=? e then
            generateDays_loop fuel'
              (Some (setDate c (default 0 (getDate (Some c)) + 1)))
              endLimit
              (days ++ [ {| ItineraryDay.id := "day-" +:+ pretty c;
                            ItineraryDay.date := toISODate c;
                            ItineraryDay.activities := [] |} ])
          else Some days
      | _, _ => Some days
      end
  end.

Definition generateDays (fuel : nat) (start end_ : string)
  : option (list ItineraryDay.t) :=
  let startDate := Date_parse start in
  let endDate := Date_parse end_ in
  let current :=
    Date_local (getFullYear startDate) (getMonth startDate) (getDate startDate)
      12 0 0 in
  let endLimit :=
    Date_local (getFullYear endDate) (getMonth endDate) (getDate endDate)
      12 0 0 in
  generateDays_loop fuel current endLimit [].
End LocalTime.

(** Closed form of [generateDays]: the day number on which the constructor
    call of [generateDays] lands for the time value [t], noon of a day in
    local time, and the entry pushed for that day. *)
Definition constructed_day (tz t : Z) : Z :=
  let '(y, m, d) := local_civil tz t in
  MakeDay (if (0 <=? y) && (y <=? 99) then 1900 + y else y) (m - 1) d.

Definition local_noon (tz day : Z) : Z := day * msPerDay + 43200000 - tz.

Definition day_entry (tz day : Z) : ItineraryDay.t :=
  {| ItineraryDay.id := "day-" +:+ pretty (local_noon tz day);
     ItineraryDay.date := toISODate (local_noon tz day);
     ItineraryDay.activities := [] |}.

(** ** JavaScript values that cross the typed boundary

    What [JSON.parse] returns, and what the assistant sends as arguments.
    A value that may be [undefined] is an [option json]. *)

Inductive json :=
| JNull
| JBool (b : bool)
| JNumber (n : Z)
| JString (s : string)
| JArray (elements : list json)
| JObject (members : list (string * json)).

(** [try { body } catch (e) { handler }]. *)
Definition try_catch {A} (body : completion A) (handler : string -> completion A)
  : completion A :=
  match body with
  | Normal a => Normal a
  | Throw e => handler e
  end.

Definition member (k : string) (members : list (string * json)) : option json :=
  snd <$> List.find (fun kv => String.eqb (fst kv) k) members.

(** The names an object inherits from [Object.prototype].  Reading one of
    them from an object that has no member of that name finds the built-in,
    a function (for [__proto__] the prototype itself), which is no JSON
    value. *)
Definition Object_prototype_keys : list string :=
  [ "constructor"; "hasOwnProperty"; "isPrototypeOf"; "propertyIsEnumerable";
    "toLocaleString"; "toString"; "valueOf"; "__proto__";
    "__defineGetter__"; "__defineSetter__"; "__lookupGetter__";
    "__lookupSetter__" ].

(** [v.k] for a value that is neither [undefined] nor [null], and a key that
    names no member of a built-in prototype: the own properties of parsed
    data (members of an object, [length] and the elements of an array).
    The keys the modelled code writes out ([id], [days], [dayId], [rates],
    ...) are of this kind; the one key it computes is the target currency
    of the rate lookup, and what is proved of that lookup is proved for
    keys outside [Object_prototype_keys] read from an object. *)
Definition prop (v : json) (k : string) : option json :=
  match v with
  | JObject members => member k members
  | JArray elements =>
      if String.eqb k "length" then Some (JNumber (Z.of_nat (length elements)))
      else snd <$> List.find (fun ie => String.eqb (pretty (fst ie)) k)
                     (imap (fun (i : nat) e => (i, e)) elements)
  | _ => None
  end.

(** [v.k] where [v] has been found truthy. *)
Definition prop_of (v : option json) (k : string) : option json :=
  match v with
  | Some v => prop v k
  | None => None
  end.

(** [v.k] for any [v]: reading a property of [undefined] or [null] throws. *)
Definition get (v : option json) (k : string) : completion (option json) :=
  match v with
  | None => Throw ("Cannot read properties of undefined (reading '" +:+ k +:+ "')")
  | Some JNull => Throw ("Cannot read properties of null (reading '" +:+ k +:+ "')")
  | Some v => Normal (prop v k)
  end.

Definition typeof (v : option json) : string :=
  match v with
  | None => "undefined"
  | Some (JBool _) => "boolean"
  | Some (JNumber _) => "number"
  | Some (JString _) => "string"
  | Some JNull | Some (JArray _) | Some (JObject _) => "object"
  end.

Definition Array_isArray (v : option json) : bool :=
  match v with
  | Some (JArray _) => true
  | _ => false
  end.

(** Truthiness: the condition of [if], [&&] and [||]. *)
Definition truthy (v : option json) : bool :=
  match v with
  | None | Some JNull => false
  | Some (JBool b) => b
  | Some (JNumber n) => negb (n =? 0)
  | Some (JString s) => negb (String.eqb s EmptyString)
  | Some (JArray _) | Some (JObject _) => true
  end.

(** [v !== undefined]. *)
Definition defined (v : option json) : bool :=
  match v with
  | None => false
  | Some _ => true
  end.

(** String conversion of a template literal. *)
Fixpoint ToString_json (v : json) : string :=
  match v with
  | JNull => "null"
  | JBool true => "true"
  | JBool false => "false"
  | JNumber n => pretty n
  | JString s => s
  | JArray elements =>
      String.concat ","
        (List.map (fun e => match e with JNull => EmptyString | _ => ToString_json e end)
           elements)
  | JObject _ => "[object Object]"
  end.

Definition ToString (v : option json) : string :=
  match v with
  | None => "undefined"
  | Some v => ToString_json v
  end.

(** ** Persistence of the trip list (src/App.tsx) *)

(** [isValidTrip], applied to an element of the parsed array. *)
Definition isValidTrip (trip : json) : bool :=
  String.eqb (typeof (Some trip)) "object"
  && negb (match trip with JNull => true | _ => false end)
  && String.eqb (typeof (prop trip "id")) "string"
  && Array_isArray (prop trip "days").

Definition STORAGE_KEY : string := "viajaai_trips".

(** The part of the component state the two persistence effects touch, and
    [localStorage], which is taken to be available.  Trips read back from
    storage are whatever passed [isValidTrip], hence JSON values. *)
Record World := mkWorld {
  trips : list json;
  selectedTripId : option json;
  localStorage : gmap string string
}.

(** State of the first render: [useState([])], [useState(null)]. *)
Definition initial (ls : gmap string string) : World :=
  {| trips := []; selectedTripId := Some JNull; localStorage := ls |}.

Section Persistence.
(** [JSON.parse]: [None] when it throws a [SyntaxError]. *)
Variable JSON_parse : string -> option json.
(** [JSON.stringify]. *)
Variable JSON_stringify : json -> string.

(** The load effect, run once after the first render. *)
Definition loadEffect (w : World) : completion World :=
  let savedTrips := localStorage w !! STORAGE_KEY in
  match savedTrips with
  | Some text =>
      if negb (String.eqb text EmptyString) then
        try_catch
          (let* parsed :=
             match JSON_parse text with
             | Some v => Normal v
             | None => Throw "SyntaxError"
             end in
           match parsed with
           | JArray entries =>
               if (0 <? Z.of_nat (length entries)) then
                 let validTrips := List.filter isValidTrip entries in
                 match validTrips with
                 | first :: _ =>
                     Normal {| trips := validTrips;
                               selectedTripId := prop first "id";
                               localStorage := localStorage w |}
                 | [] => Normal w
                 end
               else Normal w
           | _ => Normal w
           end)
          (fun e =>
             Normal {| trips := trips w;
                       selectedTripId := selectedTripId w;
                       localStorage := delete STORAGE_KEY (localStorage w) |})
      else Normal w
  | None => Normal w
  end.

(** The persist effect, run after every render in which [trips] changed. *)
Definition persistEffect (w : World) : World :=
  if (0 <? Z.of_nat (length (trips w))) then
    {| trips := trips w;
       selectedTripId := selectedTripId w;
       localStorage :=
         <[STORAGE_KEY := JSON_stringify (JArray (trips w))]> (localStorage w) |}
  else
    {| trips := trips w;
       selectedTripId := selectedTripId w;
       localStorage := delete STORAGE_KEY (localStorage w) |}.
End Persistence.

(** ** Assistant bridge (the chat panel) *)

(** A function call of the assistant, [{ id, name, args }], and the response
    pushed for it, [{ id, name, response: { result } }]. *)
Record FunctionCall := mkCall {
  call_id : option json;
  call_name : option json;
  call_args : option json
}.

Record ToolResponse := mkResponse {
  response_id : option json;
  response_name : option json;
  response_result : string
}.

(** An object literal: its keys in the order written, each with its value
    (which may be [undefined]); on a repeated key the last one counts. *)
Definition object := list (string * option json).

Definition object_get (o : object) (k : string) : option (option json) :=
  snd <$> List.find (fun kv => String.eqb (fst kv) k) (rev o).

(** [...(cond && { k: v })]: spreading a falsy value adds nothing. *)
Definition spread_if (cond : bool) (k : string) (v : option json) : object :=
  if cond then [(k, v)] else [].

(** The object literal passed to [onAddActivity]. *)
Definition add_activity_data (args : option json) : completion object :=
  let* title := get args "title" in
  let* time := get args "time" in
  let* type := get args "type" in
  let* location := get args "location" in
  let* notes := get args "notes" in
  let* cost := get args "cost" in
  let* lat := get args "lat" in
  let* lng := get args "lng" in
  Normal [("title", title); ("time", time); ("type", type);
          ("location", location); ("notes", notes); ("cost", cost);
          ("lat", lat); ("lng", lng)].

(** The object literal passed to [onUpdateActivity]. *)
Definition update_activity_updates (args : option json) : completion object :=
  let* cost := get args "cost" in
  let* notes := get args "notes" in
  let* time := get args "time" in
  let* title := get args "title" in
  let* location := get args "location" in
  let* lat := get args "lat" in
  let* lng := get args "lng" in
  Normal (spread_if (defined cost) "cost" cost
          ++ spread_if (truthy notes) "notes" notes
          ++ spread_if (truthy time) "time" time
          ++ spread_if (truthy title) "title" title
          ++ spread_if (truthy location) "location" location
          ++ spread_if (defined lat) "lat" lat
          ++ spread_if (defined lng) "lng" lng).

Section ChatPanel.
(** The application state behind the callbacks.  The [processingTool] flag
    and the console output are presentation and are left out. *)
Context {State : Type}.
(** The three callback props; each schedules a state update. *)
Variable onAddActivity : option json -> object -> State -> State.
Variable onUpdateActivity :
  option json -> option json -> object -> State -> State.
Variable onRemoveActivity : option json -> option json -> State -> State.
(** [JSON.stringify(tripRef.current)]: the trip of the last render. *)
Variable tripDetails : State -> string.
(** [await fetch(url)] followed by [await response.json()]: the parsed body,
    or a rejection; the state may have moved on when the call resumes. *)
Variable fetch_json : string -> State -> completion (option json) * State.

(** [a || 'd'] for a string default. *)
Definition or_default (v : option json) (d : string) : option json :=
  if truthy v then v else Some (JString d).

(** The [get_exchange_rate] case, with its own [try]/[catch]. *)
Definition get_exchange_rate (args : option json) (s : State) : string * State :=
  match (let* baseCurrency := get args "baseCurrency" in
         let* targetCurrency := get args "targetCurrency" in
         Normal (or_default baseCurrency "USD", or_default targetCurrency "BRL"))
  with
  | Throw _ => ("Falha na conexão com API de câmbio.", s)
  | Normal (base, target) =>
      let '(fetched, s') :=
        fetch_json ("https://open.er-api.com/v6/latest/" +:+ ToString base) s in
      match fetched with
      | Throw _ => ("Falha na conexão com API de câmbio.", s')
      | Normal data =>
          let rates := prop_of data "rates" in
          let rate := prop_of rates (ToString target) in
          if truthy data && truthy rates && truthy rate then
            ("Taxa de câmbio: 1 " +:+ ToString base +:+ " = " +:+ ToString rate
               +:+ " " +:+ ToString target +:+ ". Data: "
               +:+ ToString (prop_of data "time_last_update_utc"),
             s')
          else ("Erro ao obter taxa de câmbio.", s')
      end
  end.

(** [name === 'literal']. *)
Definition name_is (name : option json) (literal : string) : bool :=
  match name with
  | Some (JString s) => String.eqb s literal
  | _ => false
  end.

(** The body of the [for] loop: the [switch] inside [try]/[catch], then the
    response that is pushed. *)
Definition executeTool (call : FunctionCall) (s : State) : ToolResponse * State :=
  let name := call_name call in
  let args := call_args call in
  let '(result, s') :=
    if name_is name "get_exchange_rate" then get_exchange_rate args s
    else
      let switch : completion (string * State) :=
        if name_is name "add_activity" then
          let* dayId := get args "dayId" in
          let* data := add_activity_data args in
          let s1 := onAddActivity dayId data s in
          let* title := get args "title" in
          Normal ("Atividade '" +:+ ToString title +:+ "' adicionada com sucesso.", s1)
        else if name_is name "update_activity" then
          let* dayId := get args "dayId" in
          let* activityId := get args "activityId" in
          let* updates := update_activity_updates args in
          Normal ("Atividade atualizada.", onUpdateActivity dayId activityId updates s)
        else if name_is name "remove_activity" then
          let* dayId := get args "dayId" in
          let* activityId := get args "activityId" in
          Normal ("Atividade removida.", onRemoveActivity dayId activityId s)
        else if name_is name "get_trip_details" then
          Normal (tripDetails s, s)
        else Normal ("Ferramenta desconhecida.", s) in
      match switch with
      | Normal r => r
      | Throw message => ("Erro ao executar: " +:+ message, s)
      end in
  ({| response_id := call_id call;
      response_name := name;
      response_result := result |}, s').

(** The [for (const call of functionCalls)] loop. *)
Fixpoint executeTools_loop (functionCalls : list FunctionCall)
    (responses : list ToolResponse) (s : State) : list ToolResponse * State :=
  match functionCalls with
  | [] => (responses, s)
  | call :: rest =>
      let '(response, s') := executeTool call s in
      executeTools_loop rest (responses ++ [response]) s'
  end.

Definition executeTools (functionCalls : list FunctionCall) (s : State)
  : list ToolResponse * State :=
  executeTools_loop functionCalls [] s.
End ChatPanel.

(** ** The typed boundary of the callbacks

    The chat panel passes its object literals where [Partial<Activity>] is
    declared.  [to_PartialActivity] reads such an object at that type: a
    key may be absent, or hold [undefined] or a value of its type; the
    result is [None] when a present key holds a value of another type. *)

Definition ActivityType_of_string (s : string) : option ActivityType :=
  if String.eqb s "SIGHTSEEING" then Some SIGHTSEEING
  else if String.eqb s "FOOD" then Some FOOD
  else if String.eqb s "TRANSPORT" then Some TRANSPORT
  else if String.eqb s "LODGING" then Some LODGING
  else if String.eqb s "OTHER" then Some OTHER
  else None.

Definition optional_string (v : option (option json))
  : option (option (option string)) :=
  match v with
  | None => Some None
  | Some None => Some (Some None)
  | Some (Some (JString s)) => Some (Some (Some s))
  | Some _ => None
  end.

Definition optional_number (v : option (option json))
  : option (option (option Z)) :=
  match v with
  | None => Some None
  | Some None => Some (Some None)
  | Some (Some (JNumber n)) => Some (Some (Some n))
  | Some _ => None
  end.

Definition optional_type (v : option (option json))
  : option (option (option ActivityType)) :=
  match v with
  | None => Some None
  | Some None => Some (Some None)
  | Some (Some (JString s)) =>
      (fun type => Some (Some type)) <$> ActivityType_of_string s
  | Some _ => None
  end.

Definition to_PartialActivity (o : object) : option PartialActivity.t :=
  id ← optional_string (object_get o "id");
  time ← optional_string (object_get o "time");
  title ← optional_string (object_get o "title");
  location ← optional_string (object_get o "location");
  lat ← optional_number (object_get o "lat");
  lng ← optional_number (object_get o "lng");
  notes ← optional_string (object_get o "notes");
  cost ← optional_number (object_get o "cost");
  type ← optional_type (object_get o "type");
  Some (PartialActivity.mk id time title location lat lng notes cost type).

(** ** A comparator for the examples

    Comparison by code units; [localeCompare] agrees with it on times
    written HH:MM. *)
Definition compareCodeUnits (a b : string) : Z :=
  match String.compare a b with
  | Lt => -1
  | Eq => 0
  | Gt => 1
  end.

(** ** Example data *)

Definition example_activity (id time : string) (cost : option Z) : Activity.t :=
  {| Activity.id := Some id;
     Activity.time := Some time;
     Activity.title := Some "Passeio";
     Activity.location := None;
     Activity.lat := None;
     Activity.lng := None;
     Activity.notes := None;
     Activity.cost := cost;
     Activity.type := Some SIGHTSEEING |}.

Definition example_trip : Trip.t :=
  {| Trip.id := "trip-1";
     Trip.title := "Lisboa";
     Trip.destination := "Lisboa";
     Trip.startDate := "2024-01-10";
     Trip.endDate := "2024-01-11";
     Trip.days :=
       [ {| ItineraryDay.id := "day-1";
            ItineraryDay.date := "2024-01-10";
            ItineraryDay.activities :=
              [ example_activity "a1" "09:00" (Some 100);
                example_activity "a2" "14:30" None ] |};
         {| ItineraryDay.id := "day-2";
            ItineraryDay.date := "2024-01-11";
            ItineraryDay.activities := [] |} ];
     Trip.coverImage := None;
     Trip.lat := None;
     Trip.lng := None |}.

Definition example_steps : list (option string * action) :=
  [ (Some "trip-1",
     AddActivity "a3" "day-1"
       (Some {| PartialActivity.id := None;
                PartialActivity.time := Some (Some "08:15");
                PartialActivity.title := Some (Some "Café");
                PartialActivity.location := None;
                PartialActivity.lat := None;
                PartialActivity.lng := None;
                PartialActivity.notes := None;
                PartialActivity.cost := Some (Some 12);
                PartialActivity.type := Some (Some FOOD) |}));
    (Some "trip-1",
     UpdateActivity "day-1" (Some "a1")
       {| PartialActivity.id := None;
          PartialActivity.time := Some (Some "18:00");
          PartialActivity.title := None;
          PartialActivity.location := None;
          PartialActivity.lat := None;
          PartialActivity.lng := None;
          PartialActivity.notes := None;
          PartialActivity.cost := None;
          PartialActivity.type := None |});
    (Some "trip-1", DeleteActivity "day-1" (Some "a2"));
    (Some "trip-1", AddActivity "a4" "day-2" None) ].

(** A stored text with one well-formed trip among three entries, and the
    value [JSON.parse] gives for it.  [example_JSON_parse] agrees with
    [JSON.parse] on the two texts of the examples: this one, and the empty
    text, which is not JSON. *)
Definition quoted (s : string) : string :=
  String (ascii_of_nat 34) s +:+ String (ascii_of_nat 34) EmptyString.

Definition example_text : string :=
  "[1,{" +:+ quoted "id" +:+ ":" +:+ quoted "trip-1" +:+ ","
    +:+ quoted "days" +:+ ":[]},{" +:+ quoted "id" +:+ ":7,"
    +:+ quoted "days" +:+ ":[]}]".

Definition example_entries : list json :=
  [ JNumber 1;
    JObject [("id", JString "trip-1"); ("days", JArray [])];
    JObject [("id", JNumber 7); ("days", JArray [])] ].

Definition example_JSON_parse (text : string) : option json :=
  if String.eqb text example_text then Some (JArray example_entries) else None.

(** The names of the declared tools. *)
Definition tool_names : list string :=
  ["get_exchange_rate"; "add_activity"; "update_activity"; "remove_activity";
   "get_trip_details"].

(** Callbacks that record their invocations, and a rate service that is
    down, for the examples of the bridge. *)
Definition recording_add (dayId : option json) (data : object)
    (log : list string) : list string :=
  (log ++ ["add " +:+ ToString dayId]).

Definition recording_update (dayId activityId : option json) (updates : object)
    (log : list string) : list string :=
  (log ++ ["update " +:+ ToString dayId +:+ " " +:+ ToString activityId]).

Definition recording_remove (dayId activityId : option json)
    (log : list string) : list string :=
  (log ++ ["remove " +:+ ToString dayId +:+ " " +:+ ToString activityId]).

Definition failing_fetch (url : string) (log : list string)
  : completion (option json) * list string :=
  (Throw "Failed to fetch", log).

(** A rate service that answers with the rate of the euro only. *)
Definition euro_fetch (url : string) (log : list string)
  : completion (option json) * list string :=
  (Normal (Some (JObject [("rates", JObject [("EUR", JNumber 1)])])),
   log ++ [url]).

Definition example_update_args : option json :=
  Some (JObject [("dayId", JString "day-1"); ("activityId", JString "a1");
                 ("time", JString EmptyString); ("notes", JString "Levar casaco");
                 ("cost", JNumber 0)]).

Definition example_calls : list FunctionCall :=
  [ {| call_id := Some (JString "c1");
       call_name := Some (JString "update_activity");
       call_args := example_update_args |};
    {| call_id := Some (JString "c2");
       call_name := Some (JString "book_flight");
       call_args := None |};
    {| call_id := Some (JString "c3");
       call_name := Some (JString "remove_activity");
       call_args := Some (JObject [("dayId", JString "day-1");
                                   ("activityId", JString "a2")]) |} ].

(** ** The common shape of the three handlers

    Each handler rewrites the activity list of the days with the given id in
    the trips with the selected id, and returns everything else as it is;
    [handleAddActivity] and [handleUpdateActivity] throw when rewriting one
    of the lists does. *)
Definition map_target_days (selectedTripId : option string) (dayId : string)
    (f : list Activity.t -> list Activity.t) (prevTrips : list Trip.t)
  : list Trip.t :=
  List.map (fun trip =>
    if negb (is_selected selectedTripId trip) then trip
    else
      with_days trip
        (List.map (fun day =>
           if String.eqb (ItineraryDay.id day) dayId
           then with_activities day (f (ItineraryDay.activities day))
           else day) (Trip.days trip))) prevTrips.

Definition try_map_target_days (selectedTripId : option string)
    (dayId : string) (f : list Activity.t -> completion (list Activity.t))
    (prevTrips : list Trip.t) : completion (list Trip.t) :=
  Array_map (fun trip =>
    if negb (is_selected selectedTripId trip) then Normal trip
    else
      let* updatedDays := Array_map (fun day =>
        if String.eqb (ItineraryDay.id day) dayId then
          let* acts := f (ItineraryDay.activities day) in
          Normal (with_activities day acts)
        else Normal day) (Trip.days trip) in
      Normal (with_days trip updatedDays)) prevTrips.

(** The list a rewriting returns, or the list itself when it throws. *)
Definition or_keep (f : list Activity.t -> completion (list Activity.t))
    (acts : list Activity.t) : list Activity.t :=
  match f acts with
  | Normal acts' => acts'
  | Throw _ => acts
  end.

(** [trips'] has the trips and days of [trips], one for one and with the same
    fields, except that in the days with id [dayId] of the trips with the
    selected id the old and the new activity list are related by [R]. *)
Definition itinerary_related (selectedTripId : option string) (dayId : string)
    (R : list Activity.t -> list Activity.t -> Prop)
    (trips trips' : list Trip.t) : Prop :=
  Forall2 (fun trip trip' =>
    trip' = with_days trip (Trip.days trip')
    /\ Forall2 (fun day day' =>
         day' = with_activities day (ItineraryDay.activities day')
         /\ if is_selected selectedTripId trip
               && String.eqb (ItineraryDay.id day) dayId
            then R (ItineraryDay.activities day) (ItineraryDay.activities day')
            else ItineraryDay.activities day' = ItineraryDay.activities day)
         (Trip.days trip) (Trip.days trip'))
    trips trips'.

(** The days of a trip a handler call rewrites, and how many they are. *)
Definition target_days (selectedTripId : option string) (dayId : string)
    (trip : Trip.t) : list ItineraryDay.t :=
  if is_selected selectedTripId trip
  then List.filter (fun day => String.eqb (ItineraryDay.id day) dayId)
         (Trip.days trip)
  else [].

(** The activities a call of [handleDeleteActivity] removes from a trip. *)
Definition removed_activities (selectedTripId : option string)
    (dayId : string) (activityId : option string) (trip : Trip.t)
  : list Activity.t :=
  concat
    (List.map (fun day =>
       List.filter (fun a => same_id (Activity.id a) activityId)
         (ItineraryDay.activities day))
       (target_days selectedTripId dayId trip)).

(** ** Creating and selecting trips (src/App.tsx) *)

(** [NewTripData], what the new-trip form submits. *)
Module NewTripData.
Record t := mk {
  destination : string;
  title : string;
  startDate : string;
  endDate : string;
  lat : option Z;
  lng : option Z
}.
End NewTripData.

(** The trip list and the selection, the state the handlers work on. *)
Module App.
Record state := mk {
  trips : list Trip.t;
  selectedTripId : option string
}.

Definition initial : state := mk [] None.
End App.

(** Iterations that suffice for the loop of [generateDays] (see
    [generateDays_terminates]), and the list it then returns. *)
Definition generateDays_fuel (tz : Z) (start end_ : string) : nat :=
  match Date_parse start, Date_parse end_ with
  | Some ts, Some te =>
      S (Z.to_nat (constructed_day tz te - constructed_day tz ts + 1))
  | _, _ => 1%nat
  end.

Definition generateDays_result (tz : Z) (start end_ : string)
  : list ItineraryDay.t :=
  default [] (generateDays tz (generateDays_fuel tz start end_) start end_).

(** [handleCreateTrip]; [now_id] and [now_cover] are the two readings of
    [Date.now()], for the id and for the cover image. *)
Definition handleCreateTrip (tz : Z) (now_id now_cover : Z)
    (data : NewTripData.t) (st : App.state) : App.state :=
  let newDays :=
    generateDays_result tz (NewTripData.startDate data)
      (NewTripData.endDate data) in
  let newTrip :=
    {| Trip.id := "trip-" +:+ pretty now_id;
       Trip.title :=
         if String.eqb (NewTripData.title data) EmptyString
         then NewTripData.destination data else NewTripData.title data;
       Trip.destination := NewTripData.destination data;
       Trip.startDate := NewTripData.startDate data;
       Trip.endDate := NewTripData.endDate data;
       Trip.coverImage :=
         Some ("https://picsum.photos/1200/400?random=" +:+ pretty now_cover);
       Trip.days := newDays;
       Trip.lat := NewTripData.lat data;
       Trip.lng := NewTripData.lng data |} in
  {| App.trips := newTrip :: App.trips st;
     App.selectedTripId := Some (Trip.id newTrip) |}.

(** What the user and the assistant can do to the trip list: create a trip,
    click the [index]-th trip of the sidebar, or call one of the three
    handlers, which works with the selection [captured] by its closure (the
    selection of the render that made it). *)
Inductive app_action :=
| CreateTrip (now_id now_cover : Z) (data : NewTripData.t)
| SelectTrip (index : nat)
| Itinerary (captured : option string) (a : action).

Definition app_step (localeCompare : string -> string -> Z) (tz : Z)
    (a : app_action) (st : App.state) : completion App.state :=
  match a with
  | CreateTrip now_id now_cover data =>
      Normal (handleCreateTrip tz now_id now_cover data st)
  | SelectTrip index =>
      match App.trips st !! index with
      | Some trip =>
          Normal {| App.trips := App.trips st;
                    App.selectedTripId := Some (Trip.id trip) |}
      | None => Normal st
      end
  | Itinerary captured a =>
      let* trips := run_action localeCompare (captured, a) (App.trips st) in
      Normal {| App.trips := trips;
                App.selectedTripId := App.selectedTripId st |}
  end.

(** A sequence of such events; an exception in a state updater ends it. *)
Fixpoint app_run (localeCompare : string -> string -> Z) (tz : Z)
    (steps : list app_action) (st : App.state) : completion App.state :=
  match steps with
  | [] => Normal st
  | a :: steps' =>
      let* st' := app_step localeCompare tz a st in
      app_run localeCompare tz steps' st'
  end.

(** The events whose data, when they carry a time key, carry a string. *)
Definition app_action_timed (a : app_action) : Prop :=
  match a with
  | Itinerary _ a => action_timed a
  | _ => True
  end.

(** What holds of every state the application reaches from the empty trip
    list: the sort invariant, and a selection that names one of the trips
    whenever there is a trip. *)
Definition app_invariant (localeCompare : string -> string -> Z)
    (st : App.state) : Prop :=
  Forall (trip_sorted localeCompare) (App.trips st)
  /\ match App.selectedTripId st with
     | Some id => exists trip, trip ∈ App.trips st /\ Trip.id trip = id
     | None => App.trips st = []
     end.

(** The character of a decimal digit. *)
Definition digit_char (n : Z) : ascii := ascii_of_N (Z.to_N (n + 48)).

(** ** Saving an edited activity (src/App.tsx)

    [handleSaveActivityUI] passes the edited activity itself as the updates.
    A key of it is present when it holds a value; when it reads [undefined]
    it may be present or not, which [OptionalKeys] records. *)
Record OptionalKeys := mkKeys {
  has_id : bool;
  has_time : bool;
  has_title : bool;
  has_location : bool;
  has_lat : bool;
  has_lng : bool;
  has_notes : bool;
  has_cost : bool;
  has_type : bool
}.

Definition own_key {A} (present : bool) (v : option A) : option (option A) :=
  match v with
  | Some x => Some (Some x)
  | None => if present then Some None else None
  end.

Definition Activity_as_updates (keys : OptionalKeys) (a : Activity.t)
  : PartialActivity.t :=
  {| PartialActivity.id := own_key (has_id keys) (Activity.id a);
     PartialActivity.time := own_key (has_time keys) (Activity.time a);
     PartialActivity.title := own_key (has_title keys) (Activity.title a);
     PartialActivity.location := own_key (has_location keys) (Activity.location a);
     PartialActivity.lat := own_key (has_lat keys) (Activity.lat a);
     PartialActivity.lng := own_key (has_lng keys) (Activity.lng a);
     PartialActivity.notes := own_key (has_notes keys) (Activity.notes a);
     PartialActivity.cost := own_key (has_cost keys) (Activity.cost a);
     PartialActivity.type := own_key (has_type keys) (Activity.type a) |}.

Definition handleSaveActivityUI (localeCompare : string -> string -> Z)
    (selectedTripId : option string) (keys : OptionalKeys) (dayId : string)
    (updatedActivity : Activity.t) (prevTrips : list Trip.t)
  : completion (list Trip.t) :=
  handleUpdateActivity localeCompare selectedTripId dayId
    (Activity.id updatedActivity) (Activity_as_updates keys updatedActivity)
    prevTrips.

(** ** The map of a trip (src/components/TripMap.tsx) *)

Module MapPoint.
Record t := mk {
  lat : Z;
  lng : Z;
  title : option string;
  dayIndex : Z
}.
End MapPoint.

(** Truthiness of an optional number: [undefined] and 0 are falsy. *)
Definition number_truthy (x : option Z) : bool :=
  match x with
  | Some n => negb (n =? 0)
  | None => false
  end.

(** [day.activities.forEach(act => { if (act.lat && act.lng) points.push(..) })]. *)
Definition push_points (index : nat) (day : ItineraryDay.t)
    (points : list MapPoint.t) : list MapPoint.t :=
  fold_left (fun points act =>
    match Activity.lat act, Activity.lng act with
    | Some lat, Some lng =>
        if number_truthy (Some lat) && number_truthy (Some lng) then
          points ++ [ {| MapPoint.lat := lat;
                         MapPoint.lng := lng;
                         MapPoint.title := Activity.title act;
                         MapPoint.dayIndex := Z.of_nat index + 1 |} ]
        else points
    | _, _ => points
    end) (ItineraryDay.activities day) points.

(** [trip.days.forEach((day, index) => ...)], collecting the points. *)
Definition TripMap_points (trip : Trip.t) : list MapPoint.t :=
  (fold_left (fun acc day =>
     (push_points acc.2 day acc.1, S acc.2)) (Trip.days trip) ([], 0%nat)).1.

(** The condition under which the placeholder is rendered instead of the
    map: [trip.days.every(d => d.activities.every(a => !a.lat))]. *)
Definition TripMap_placeholder (trip : Trip.t) : bool :=
  forallb (fun d =>
    forallb (fun a => negb (number_truthy (Activity.lat a)))
      (ItineraryDay.activities d)) (Trip.days trip).

(** ** Configuration and the demo sign-in (src/services/firebase.ts) *)

(** [getEnv]: [import.meta.env] and [process.env], each [None] when the
    object does not exist; a value counts when it is a non-empty string. *)
Definition env_value (env : option (gmap string string)) (key : string)
  : option string :=
  match env with
  | Some vars =>
      match vars !! key with
      | Some v => if String.eqb v EmptyString then None else Some v
      | None => None
      end
  | None => None
  end.

Definition getEnv (meta_env process_env : option (gmap string string))
    (key defaultValue : string) : string :=
  match env_value meta_env key with
  | Some v => v
  | None =>
      match env_value process_env key with
      | Some v => v
      | None => defaultValue
      end
  end.

Definition API_KEY (meta_env process_env : option (gmap string string)) : string :=
  getEnv meta_env process_env "FIREBASE_API_KEY" "SUA_API_KEY_AQUI".

(** [isDemoMode] as it is first set: [API_KEY === "SUA_API_KEY_AQUI" || !API_KEY]. *)
Definition isDemoMode (meta_env process_env : option (gmap string string)) : bool :=
  String.eqb (API_KEY meta_env process_env) "SUA_API_KEY_AQUI"
  || String.eqb (API_KEY meta_env process_env) EmptyString.

(** The demo branch of the three exported functions, taken when
    [isDemoMode || !auth].  Callbacks are known by their identity; [notified]
    records the calls made to them, with [true] for [mockUser] and [false]
    for [null]. *)
Module DemoAuth.
Record state := mk {
  mockListeners : list nat;
  localStorage : gmap string string;
  notified : list (nat * bool)
}.

Definition SESSION_KEY : string := "demo_auth_session".

Definition notifyMockListeners (user : bool) (st : state) : state :=
  {| mockListeners := mockListeners st;
     localStorage :=
       if user then <[SESSION_KEY := "true"]> (localStorage st)
       else delete SESSION_KEY (localStorage st);
     notified :=
       notified st ++ List.map (fun cb => (cb, user)) (mockListeners st) |}.

(** After the delay of 800 ms. *)
Definition signInWithGoogle (st : state) : state := notifyMockListeners true st.

Definition logout (st : state) : state := notifyMockListeners false st.

(** [subscribeToAuthChanges(callback)]: the listener is registered, and the
    session read now decides what the timer will tell the callback, which
    is the second component. *)
Definition subscribeToAuthChanges (callback : nat) (st : state)
  : state * (nat * bool) :=
  let hasSession :=
    match localStorage st !! SESSION_KEY with
    | Some v => negb (String.eqb v EmptyString)
    | None => false
    end in
  ({| mockListeners := mockListeners st ++ [callback];
      localStorage := localStorage st;
      notified := notified st |},
   (callback, hasSession)).

(** The timer of [subscribeToAuthChanges] fires. *)
Definition timer (call : nat * bool) (st : state) : state :=
  {| mockListeners := mockListeners st;
     localStorage := localStorage st;
     notified := notified st ++ [call] |}.

(** [indexOf] followed by [splice(index, 1)]: the first occurrence goes. *)
Fixpoint remove_first (callback : nat) (listeners : list nat) : list nat :=
  match listeners with
  | [] => []
  | cb :: rest =>
      if Nat.eqb cb callback then rest else cb :: remove_first callback rest
  end.

(** The function [subscribeToAuthChanges] returns. *)
Definition unsubscribe (callback : nat) (st : state) : state :=
  {| mockListeners := remove_first callback (mockListeners st);
     localStorage := localStorage st;
     notified := notified st |}.
End DemoAuth.

(** The point pushed for an activity of the day at [index], if any. *)
Definition map_point (index : nat) (act : Activity.t) : option MapPoint.t :=
  match Activity.lat act, Activity.lng act with
  | Some lat, Some lng =>
      if number_truthy (Some lat) && number_truthy (Some lng) then
        Some {| MapPoint.lat := lat;
                MapPoint.lng := lng;
                MapPoint.title := Activity.title act;
                MapPoint.dayIndex := Z.of_nat index + 1 |}
      else None
  | _, _ => None
  end.

(** A stored trip list of one trip, its text, and [JSON.parse] and
    [JSON.stringify] on the two. *)
Definition example_saved_trips : list json :=
  [ JObject [("id", JString "trip-1"); ("days", JArray [])] ].

Definition example_saved_text : string :=
  "[{" +:+ quoted "id" +:+ ":" +:+ quoted "trip-1" +:+ ","
    +:+ quoted "days" +:+ ":[]}]".

Definition example_saved_parse (text : string) : option json :=
  if String.eqb text example_saved_text
  then Some (JArray example_saved_trips) else None.

Definition example_saved_stringify (v : json) : string := example_saved_text.

(** * Properties *)

(** ** Computations that may throw *)

Lemma Array_map_Normal {A B} (f : A -> completion B) (g : A -> B) (l : list A) :
  (forall x, x ∈ l -> f x = Normal (g x)) ->
  Array_map f l = Normal (List.map g l).
Proof.
  induction l as [|x l IH]; intros Hf; [done|].
  cbn [Array_map List.map]. rewrite Hf by constructor. cbn [bind].
  rewrite IH; [done|]. intros y Hy. apply Hf. by constructor.
Qed.

Lemma Array_map_inv {A B} (f : A -> completion B) (l : list A) (l' : list B) :
  Array_map f l = Normal l' -> Forall2 (fun x y => f x = Normal y) l l'.
Proof.
  revert l'. induction l as [|x l IH]; intros l' Hmap; cbn [Array_map] in Hmap.
  - injection Hmap as <-. constructor.
  - destruct (f x) as [y|] eqn:Hx; [|discriminate]. cbn [bind] in Hmap.
    destruct (Array_map f l) as [ys|]; [|discriminate]. cbn [bind] in Hmap.
    injection Hmap as <-. constructor; [done|]. by apply IH.
Qed.

Lemma Array_map_throws {A B} (f : A -> completion B) (l : list A) (x : A) :
  x ∈ l -> (exists message, f x = Throw message) ->
  exists message, Array_map f l = Throw message.
Proof.
  intros Hx [message Hthrow].
  induction l as [|y l IH]; [by apply not_elem_of_nil in Hx|].
  cbn [Array_map]. destruct (f y) as [y'|message'] eqn:Hy; [|by eexists].
  cbn [bind]. apply elem_of_cons in Hx as [->|Hx]; [congruence|].
  destruct (IH Hx) as [message' ->]. by eexists.
Qed.

(** ** Sorting *)

Lemma Sorted_middle {A} (R : A -> A -> Prop) (l1 l2 : list A) (a b : A) :
  Sorted R (l1 ++ a :: b :: l2) -> R a b.
Proof.
  induction l1 as [|x l1 IH]; cbn [app]; intros Hsorted.
  - apply Sorted_inv in Hsorted as [_ Hhd]. by inversion Hhd.
  - apply Sorted_inv in Hsorted as [Hsorted _]. by apply IH.
Qed.

Lemma Sorted_snoc {A} (R : A -> A -> Prop) (l : list A) (x : A) :
  Sorted R l -> (forall y, last l = Some y -> R y x) -> Sorted R (l ++ [x]).
Proof.
  induction 1 as [|y l Hl IH Hhd]; intros Hlast; cbn [app].
  - by repeat constructor.
  - constructor.
    + apply IH. intros z Hz. apply Hlast. by destruct l.
    + destruct Hhd as [|z l Hyz]; cbn [app]; constructor; [|done].
      by apply Hlast.
Qed.

Lemma last_rev {A} (l : list A) : last (rev l) = head l.
Proof. destruct l as [|x l]; [done|]. cbn [rev head]. apply last_snoc. Qed.

Lemma Sorted_rev {A} (R : A -> A -> Prop) (l : list A) :
  Sorted (fun a b => R b a) l -> Sorted R (rev l).
Proof.
  induction 1 as [|x l Hl IH Hhd]; cbn [rev]; [constructor|].
  apply Sorted_snoc; [done|]. intros y Hy. rewrite last_rev in Hy.
  destruct Hhd as [|z l Hxz]; [done|]. by injection Hy as <-.
Qed.

Section SortFacts.
Context {A : Type} (comparefn : A -> A -> completion Z).

(** [a] may stay before [b]: called with the later element first, the
    comparator returns, and not a negative number. *)
Let before (a b : A) : Prop :=
  exists order, comparefn b a = Normal order /\ 0 <= order.

(** Where [sort_insert] puts the element. *)
Lemma sort_insert_inv (x : A) (placed r : list A) :
  sort_insert comparefn x placed = Normal r ->
  exists p1 p2, placed = p1 ++ p2 /\ r = p1 ++ x :: p2.
Proof.
  revert r. induction placed as [|y placed IH]; intros r Hr;
    cbn [sort_insert] in Hr.
  - injection Hr as <-. by exists [], [].
  - destruct (comparefn x y) as [order|]; [|discriminate]. cbn [bind] in Hr.
    destruct (order <? 0).
    + destruct (sort_insert comparefn x placed) as [r'|]; [|discriminate].
      cbn [bind] in Hr. injection Hr as <-.
      destruct (IH r' eq_refl) as (p1 & p2 & -> & ->).
      by exists (y :: p1), p2.
    + injection Hr as <-. by exists [], (y :: placed).
Qed.

Lemma sort_insert_Permutation (x : A) (placed r : list A) :
  sort_insert comparefn x placed = Normal r -> r ≡ₚ x :: placed.
Proof.
  intros (p1 & p2 & -> & ->)%sort_insert_inv.
  by rewrite Permutation_middle.
Qed.

Lemma sort_loop_Permutation (l placed r : list A) :
  sort_loop comparefn l placed = Normal r -> r ≡ₚ placed ++ l.
Proof.
  revert placed. induction l as [|x l IH]; intros placed Hr;
    cbn [sort_loop] in Hr.
  - injection Hr as <-. rewrite app_nil_r. symmetry. apply Permutation_rev.
  - destruct (sort_insert comparefn x placed) as [placed'|] eqn:Hinsert;
      [|discriminate].
    cbn [bind] in Hr. rewrite (IH _ Hr).
    rewrite (sort_insert_Permutation _ _ _ Hinsert).
    cbn [app]. apply Permutation_middle.
Qed.

Lemma Array_sort_Permutation (l r : list A) :
  Array_sort comparefn l = Normal r -> r ≡ₚ l.
Proof. apply sort_loop_Permutation. Qed.

(** Elements that are in order are placed one after the other, with one
    call of the comparator each. *)
Lemma sort_loop_sorted_prefix (prefix l1 l2 : list A) :
  Sorted before (prefix ++ l1) ->
  sort_loop comparefn (l1 ++ l2) (rev prefix)
  = sort_loop comparefn l2 (rev (prefix ++ l1)).
Proof.
  revert prefix. induction l1 as [|x l1 IH]; intros prefix Hsorted.
  - by rewrite app_nil_r.
  - cbn [app sort_loop].
    assert (Hinsert :
      sort_insert comparefn x (rev prefix) = Normal (rev (prefix ++ [x]))).
    { rewrite rev_app_distr. cbn [rev app].
      destruct prefix as [|z prefix _] using rev_ind; [done|].
      rewrite rev_app_distr. cbn [rev app sort_insert].
      rewrite <- app_assoc in Hsorted. cbn [app] in Hsorted.
      apply Sorted_middle in Hsorted as (order & -> & Horder).
      cbn [bind]. apply Z.ltb_ge in Horder. by rewrite Horder. }
    rewrite Hinsert. cbn [bind].
    rewrite (IH (prefix ++ [x])); rewrite <- app_assoc; done.
Qed.

Lemma Array_sort_of_sorted (l : list A) :
  Sorted before l -> Array_sort comparefn l = Normal l.
Proof.
  intros Hsorted. unfold Array_sort.
  pose proof (sort_loop_sorted_prefix [] l [] Hsorted) as Hloop.
  cbn [rev app sort_loop] in Hloop. rewrite app_nil_r in Hloop.
  by rewrite Hloop, rev_involutive.
Qed.

(** The sort is stable: an element appended to a list in order is put in
    its place, and the others stay as they were. *)
Lemma Array_sort_append (l r : list A) (x : A) (keep : A -> bool) :
  Sorted before l ->
  Array_sort comparefn (l ++ [x]) = Normal r ->
  keep x = false -> (forall y, y ∈ l -> keep y = true) ->
  List.filter keep r = l.
Proof.
  intros Hsorted Hr Hx Hl. unfold Array_sort in Hr.
  pose proof (sort_loop_sorted_prefix [] l [x] Hsorted) as Hloop.
  cbn [rev app] in Hloop. rewrite Hloop in Hr. clear Hloop.
  cbn [sort_loop] in Hr.
  destruct (sort_insert comparefn x (rev l)) as [placed|] eqn:Hinsert;
    [|discriminate].
  cbn [bind] in Hr. injection Hr as <-.
  apply sort_insert_inv in Hinsert as (p1 & p2 & Hl' & ->).
  rewrite rev_app_distr. cbn [rev]. rewrite <- app_assoc. cbn [app].
  rewrite List.filter_app. cbn [List.filter]. rewrite Hx.
  rewrite <- List.filter_app, <- rev_app_distr, <- Hl', rev_involutive.
  clear -Hl. induction l as [|y l IH]; [done|].
  cbn [List.filter]. rewrite Hl by constructor. f_equal.
  apply IH. intros z Hz. apply Hl. by constructor.
Qed.

(** An element on which the comparator throws cannot be appended to a list
    that is not empty. *)
Lemma sort_loop_throws (l placed : list A) (x : A) :
  (forall y, exists message, comparefn x y = Throw message) ->
  l <> [] \/ placed <> [] ->
  exists message, sort_loop comparefn (l ++ [x]) placed = Throw message.
Proof.
  intros Hthrow. revert placed.
  induction l as [|z l IH]; intros placed Hne; cbn [app sort_loop].
  - destruct Hne as [?|Hne]; [done|]. destruct placed as [|y placed]; [done|].
    cbn [sort_insert]. destruct (Hthrow y) as [message ->]. by eexists.
  - destruct (sort_insert comparefn z placed) as [placed'|message] eqn:Hinsert;
      [|by eexists].
    cbn [bind]. apply IH. right.
    apply sort_insert_inv in Hinsert as (p1 & p2 & _ & ->).
    by destruct p1.
Qed.

Lemma Array_sort_throws (l : list A) (x : A) :
  (forall y, exists message, comparefn x y = Throw message) ->
  l <> [] ->
  exists message, Array_sort comparefn (l ++ [x]) = Throw message.
Proof. intros Hthrow Hne. apply sort_loop_throws; auto. Qed.

(** The sort returns when the comparator does, whatever it is called
    with first. *)
Lemma sort_insert_returns (x : A) (placed : list A) :
  (forall y, exists order, comparefn x y = Normal order) ->
  exists r, sort_insert comparefn x placed = Normal r.
Proof.
  intros Hx. induction placed as [|y placed [r Hr]]; cbn [sort_insert].
  - by eexists.
  - destruct (Hx y) as [order ->]. cbn [bind].
    destruct (order <? 0); [|by eexists]. rewrite Hr. by eexists.
Qed.

Lemma sort_loop_returns (l placed : list A) :
  Forall (fun x => forall y, exists order, comparefn x y = Normal order) l ->
  exists r, sort_loop comparefn l placed = Normal r.
Proof.
  intros Hl. revert placed.
  induction Hl as [|x l Hx Hl IH]; intros placed; cbn [sort_loop].
  - by eexists.
  - destruct (sort_insert_returns x placed Hx) as [placed' ->]. apply IH.
Qed.

Lemma Array_sort_returns (l : list A) :
  Forall (fun x => forall y, exists order, comparefn x y = Normal order) l ->
  exists r, Array_sort comparefn l = Normal r.
Proof. apply sort_loop_returns. Qed.

(** When the comparator returns on the elements of the list and its
    results are those of a total order, the sort returns, and the result
    is in order. *)
Section Total.
Variable f : A -> A -> Z.
Hypothesis f_total : forall a b, 0 <= f a b \/ 0 <= f b a.

Lemma sort_insert_Sorted (x : A) (placed : list A) :
  (forall y, comparefn x y = Normal (f x y)) ->
  Forall (fun z => forall y, comparefn z y = Normal (f z y)) placed ->
  Sorted (fun a b => before b a) placed ->
  exists r,
    sort_insert comparefn x placed = Normal r
    /\ Sorted (fun a b => before b a) r.
Proof.
  intros Hx Hplaced Hsorted.
  induction Hsorted as [|y placed Hsorted IH Hhd]; cbn [sort_insert].
  - eexists. split; [done|]. by repeat constructor.
  - rewrite Hx. cbn [bind].
    apply Forall_cons in Hplaced as [Hy Hplaced].
    destruct (Z.ltb_spec (f x y) 0) as [Hlt|Hge].
    + destruct (IH Hplaced) as (r & Hr & Hsorted_r).
      rewrite Hr. cbn [bind]. eexists. split; [done|].
      constructor; [done|].
      apply sort_insert_inv in Hr as (p1 & p2 & -> & ->).
      destruct p1 as [|z p1]; cbn [app].
      * constructor. exists (f y x). split; [apply Hy|].
        destruct (f_total x y); [lia|done].
      * constructor. by inversion Hhd.
    + eexists. split; [done|].
      constructor; [by constructor|].
      constructor. exists (f x y). by rewrite Hx.
Qed.

Lemma sort_loop_Sorted (l placed : list A) :
  Forall (fun z => forall y, comparefn z y = Normal (f z y)) l ->
  Forall (fun z => forall y, comparefn z y = Normal (f z y)) placed ->
  Sorted (fun a b => before b a) placed ->
  exists r, sort_loop comparefn l placed = Normal r /\ Sorted before r.
Proof.
  revert placed. induction l as [|x l IH]; intros placed Hl Hplaced Hsorted;
    cbn [sort_loop].
  - eexists. split; [done|]. by apply Sorted_rev.
  - apply Forall_cons in Hl as [Hx Hl].
    destruct (sort_insert_Sorted x placed Hx Hplaced Hsorted)
      as (placed' & Hinsert & Hsorted').
    rewrite Hinsert. cbn [bind]. apply IH; [done| |done].
    apply sort_insert_Permutation in Hinsert. rewrite Hinsert.
    by constructor.
Qed.

Lemma Array_sort_Sorted (l : list A) :
  Forall (fun z => forall y, comparefn z y = Normal (f z y)) l ->
  exists r, Array_sort comparefn l = Normal r /\ Sorted before r.
Proof. intros Hl. apply sort_loop_Sorted; [done|constructor|constructor]. Qed.
End Total.
End SortFacts.

(** ** The reducer *)

Lemma Forall_map_preserved {A} (P : A -> Prop) (f : A -> A) (l : list A) :
  (forall x, P x -> P (f x)) -> Forall P l -> Forall P (List.map f l).
Proof.
  intros Hf. induction 1; simpl; constructor; auto.
Qed.

Lemma map_fixed {A} (f : A -> A) (l : list A) :
  (forall x, x ∈ l -> f x = x) -> List.map f l = l.
Proof.
  induction l as [|x l IH]; intros Hf; simpl; [done|].
  rewrite Hf by constructor.
  rewrite IH; [done|]. intros y Hy. apply Hf. by constructor.
Qed.

Lemma filter_all {A} (f : A -> bool) (l : list A) :
  (forall x, x ∈ l -> f x = true) -> List.filter f l = l.
Proof.
  induction l as [|x l IH]; intros Hf; simpl; [done|].
  rewrite Hf by constructor. f_equal. apply IH.
  intros y Hy. apply Hf. by constructor.
Qed.

Lemma is_selected_with_days sel trip ds :
  is_selected sel (with_days trip ds) = is_selected sel trip.
Proof. by destruct sel. Qed.

Lemma with_days_days trip : with_days trip (Trip.days trip) = trip.
Proof. by destruct trip. Qed.

Lemma with_activities_activities day :
  with_activities day (ItineraryDay.activities day) = day.
Proof. by destruct day. Qed.

Lemma filter_twice {A} (f : A -> bool) (l : list A) :
  List.filter f (List.filter f l) = List.filter f l.
Proof.
  induction l as [|x l IH]; simpl; [done|].
  destruct (f x) eqn:Hx; simpl; [|done].
  by rewrite Hx, IH.
Qed.

Lemma same_id_eq (id activityId : option string) :
  same_id id activityId = true <-> id = activityId.
Proof.
  destruct id as [a|], activityId as [b|]; cbn [same_id]; try done.
  rewrite String.eqb_eq. split; congruence.
Qed.

Lemma same_id_ne (id activityId : option string) :
  same_id id activityId = false <-> id <> activityId.
Proof.
  rewrite <- same_id_eq. by destruct (same_id id activityId).
Qed.

(** The handlers in their common shape. *)
Lemma handleAddActivity_shape localeCompare sel freshId dayId data trips :
  handleAddActivity localeCompare sel freshId dayId data trips
  = try_map_target_days sel dayId
      (fun acts => Array_sort (byTime localeCompare)
                     (acts ++ [newActivity freshId data])) trips.
Proof. reflexivity. Qed.

Lemma handleUpdateActivity_shape localeCompare sel dayId activityId updates trips :
  handleUpdateActivity localeCompare sel dayId activityId updates trips
  = try_map_target_days sel dayId
      (fun acts => Array_sort (byTime localeCompare)
         (List.map (fun a => if same_id (Activity.id a) activityId
                             then spread a updates else a) acts)) trips.
Proof. reflexivity. Qed.

Lemma handleDeleteActivity_shape sel dayId activityId trips :
  handleDeleteActivity sel dayId activityId trips
  = map_target_days sel dayId
      (List.filter (fun a => negb (same_id (Activity.id a) activityId)))
      trips.
Proof. reflexivity. Qed.

(** A rewriting that returns on the lists of the targeted days returns. *)
Lemma try_map_target_days_returns sel dayId f trips :
  (forall trip day,
      trip ∈ trips -> is_selected sel trip = true ->
      day ∈ Trip.days trip -> ItineraryDay.id day = dayId ->
      exists acts, f (ItineraryDay.activities day) = Normal acts) ->
  try_map_target_days sel dayId f trips
  = Normal (map_target_days sel dayId (or_keep f) trips).
Proof.
  intros Hf. apply Array_map_Normal. intros trip Htrip.
  destruct (is_selected sel trip) eqn:Hsel; cbn [negb]; [|done].
  rewrite (Array_map_Normal _
             (fun day =>
                if String.eqb (ItineraryDay.id day) dayId
                then with_activities day
                       (or_keep f (ItineraryDay.activities day))
                else day)); [done|].
  intros day Hday.
  destruct (String.eqb (ItineraryDay.id day) dayId) eqn:Hid; [|done].
  apply String.eqb_eq in Hid.
  destruct (Hf trip day) as [acts Hacts]; try done.
  unfold or_keep. by rewrite Hacts.
Qed.

Lemma Array_map_inv_elem {A B} (f : A -> completion B) (l : list A)
    (l' : list B) (x : A) :
  Array_map f l = Normal l' -> x ∈ l -> exists y, f x = Normal y.
Proof.
  intros Hmap%Array_map_inv Hx.
  apply list_elem_of_lookup_1 in Hx as [i Hi].
  destruct (Forall2_lookup_l _ _ _ _ _ Hmap Hi) as (y & _ & Hy). by exists y.
Qed.

(** A rewriting that returns did so on the lists of all targeted days. *)
Lemma try_map_target_days_inv sel dayId f trips trips' :
  try_map_target_days sel dayId f trips = Normal trips' ->
  trips' = map_target_days sel dayId (or_keep f) trips
  /\ (forall trip day,
        trip ∈ trips -> is_selected sel trip = true ->
        day ∈ Trip.days trip -> ItineraryDay.id day = dayId ->
        exists acts, f (ItineraryDay.activities day) = Normal acts).
Proof.
  intros Hmap.
  assert (Hf : forall trip day,
            trip ∈ trips -> is_selected sel trip = true ->
            day ∈ Trip.days trip -> ItineraryDay.id day = dayId ->
            exists acts, f (ItineraryDay.activities day) = Normal acts).
  { intros trip day Htrip Hsel Hday Hid.
    destruct (Array_map_inv_elem _ _ _ trip Hmap Htrip) as [trip' Htrip'].
    rewrite Hsel in Htrip'. cbn [negb] in Htrip'.
    destruct (Array_map _ (Trip.days trip)) as [days'|] eqn:Hdays;
      [|discriminate].
    destruct (Array_map_inv_elem _ _ _ day Hdays Hday) as [day' Hday'].
    apply String.eqb_eq in Hid. rewrite Hid in Hday'.
    destruct (f (ItineraryDay.activities day)) as [acts|]; [|discriminate].
    by exists acts. }
  split; [|exact Hf].
  rewrite (try_map_target_days_returns _ _ _ _ Hf) in Hmap. congruence.
Qed.

Lemma try_map_target_days_throws sel dayId f trips trip day :
  trip ∈ trips -> is_selected sel trip = true ->
  day ∈ Trip.days trip -> ItineraryDay.id day = dayId ->
  (exists message, f (ItineraryDay.activities day) = Throw message) ->
  exists message, try_map_target_days sel dayId f trips = Throw message.
Proof.
  intros Htrip Hsel Hday Hid [message Hthrow].
  apply (Array_map_throws _ _ trip Htrip).
  rewrite Hsel. cbn [negb].
  destruct (Array_map_throws
              (fun day =>
                 if String.eqb (ItineraryDay.id day) dayId then
                   let* acts := f (ItineraryDay.activities day) in
                   Normal (with_activities day acts)
                 else Normal day) (Trip.days trip) day Hday)
    as [message' Hdays].
  - apply String.eqb_eq in Hid. rewrite Hid, Hthrow. by eexists.
  - rewrite Hdays. by eexists.
Qed.

Lemma map_target_days_related sel dayId f (R : _ -> _ -> Prop) trips :
  (forall trip day,
      trip ∈ trips -> is_selected sel trip = true ->
      day ∈ Trip.days trip -> ItineraryDay.id day = dayId ->
      R (ItineraryDay.activities day) (f (ItineraryDay.activities day))) ->
  itinerary_related sel dayId R trips (map_target_days sel dayId f trips).
Proof.
  intros HR. unfold itinerary_related, map_target_days.
  apply Forall2_fmap_r, Forall_Forall2_diag, Forall_forall.
  intros trip Htrip. simpl.
  destruct (is_selected sel trip) eqn:Hsel; simpl.
  - split; [done|].
    apply Forall2_fmap_r, Forall_Forall2_diag, Forall_forall.
    intros day Hday. simpl.
    destruct (String.eqb (ItineraryDay.id day) dayId) eqn:Hid; simpl.
    + split; [done|]. apply (HR trip); try done. by apply String.eqb_eq.
    + split; [by destruct day|done].
  - split; [by destruct trip|].
    apply Forall_Forall2_diag, Forall_forall. intros day _.
    split; [by destruct day|done].
Qed.

Lemma map_target_days_compose sel dayId f g trips :
  map_target_days sel dayId f (map_target_days sel dayId g trips)
  = map_target_days sel dayId (fun acts => f (g acts)) trips.
Proof.
  unfold map_target_days. rewrite List.map_map.
  apply List.map_ext. intros trip.
  destruct (is_selected sel trip) eqn:Hsel; simpl.
  - rewrite is_selected_with_days, Hsel. simpl.
    unfold with_days; simpl. f_equal.
    rewrite List.map_map. apply List.map_ext. intros day.
    destruct (String.eqb (ItineraryDay.id day) dayId) eqn:Hid; simpl;
      by rewrite Hid.
  - by rewrite Hsel.
Qed.

Lemma map_target_days_fixed sel dayId f trips :
  (forall trip day,
      trip ∈ trips -> is_selected sel trip = true ->
      day ∈ Trip.days trip -> ItineraryDay.id day = dayId ->
      f (ItineraryDay.activities day) = ItineraryDay.activities day) ->
  map_target_days sel dayId f trips = trips.
Proof.
  intros Hf. apply map_fixed. intros trip Htrip.
  destruct (is_selected sel trip) eqn:Hsel; simpl; [|done].
  transitivity (with_days trip (Trip.days trip)); [|apply with_days_days].
  f_equal. apply map_fixed. intros day Hday.
  destruct (String.eqb (ItineraryDay.id day) dayId) eqn:Hid; [|done].
  apply String.eqb_eq in Hid. rewrite (Hf trip) by done.
  apply with_activities_activities.
Qed.

(** ** The comparator *)

Lemma byTime_timed localeCompare (a b : Activity.t) :
  timed a ->
  byTime localeCompare a b = Normal (localeCompare (time_text a) (time_text b)).
Proof. intros [time Htime]. unfold byTime, time_text. by rewrite Htime. Qed.

Lemma byTime_untimed localeCompare (a b : Activity.t) :
  Activity.time a = None ->
  exists message, byTime localeCompare a b = Throw message.
Proof. intros Htime. unfold byTime. rewrite Htime. by eexists. Qed.

Lemma day_sorted_Sorted localeCompare trips trip day :
  Forall (trip_sorted localeCompare) trips ->
  trip ∈ trips -> day ∈ Trip.days trip ->
  Forall timed (ItineraryDay.activities day)
  /\ Sorted (time_le localeCompare) (ItineraryDay.activities day).
Proof.
  intros Hsorted Htrip Hday.
  rewrite Forall_forall in Hsorted. specialize (Hsorted _ Htrip).
  unfold trip_sorted in Hsorted. rewrite Forall_forall in Hsorted.
  by apply Hsorted.
Qed.

(** C1.  The claim fails on the add operation: with data whose time key is
    present and holds [undefined], which is what the chat panel passes for
    an [add_activity] call without a time, [handleAddActivity] does not
    yield a trip at all when a targeted day already has an activity: the
    comparator reads [localeCompare] of the undefined time of the new
    activity and throws. *)
Theorem handleAddActivity_undefined_time
    localeCompare sel freshId dayId data trips trip day :
  PartialActivity.time data = Some None ->
  trip ∈ trips -> is_selected sel trip = true ->
  day ∈ Trip.days trip -> ItineraryDay.id day = dayId ->
  ItineraryDay.activities day <> [] ->
  Activity.time (newActivity freshId (Some data)) = None
  /\ exists message,
       handleAddActivity localeCompare sel freshId dayId (Some data) trips
       = Throw message.
Proof.
  intros Htime Htrip Hsel Hday Hid Hacts.
  assert (Hnew : Activity.time (newActivity freshId (Some data)) = None).
  { unfold newActivity. cbn. by rewrite Htime. }
  split; [exact Hnew|].
  rewrite handleAddActivity_shape.
  apply (try_map_target_days_throws _ _ _ _ trip day); try done.
  apply Array_sort_throws; [|done].
  intros y. by apply byTime_untimed.
Qed.

(** C6. On trips in time order, [handleUpdateActivity] returns its input
    when no day of the selected trip has the given day id, or when the days
    with that id hold no activity with the given activity id. *)
Theorem handleUpdateActivity_no_match
    localeCompare sel dayId activityId updates trips :
  Forall (trip_sorted localeCompare) trips ->
  (forall trip day act,
      trip ∈ trips -> is_selected sel trip = true ->
      day ∈ Trip.days trip -> ItineraryDay.id day = dayId ->
      act ∈ ItineraryDay.activities day -> Activity.id act <> activityId) ->
  handleUpdateActivity localeCompare sel dayId activityId updates trips
  = Normal trips.
Proof.
  intros Hsorted Hnone. rewrite handleUpdateActivity_shape.
  assert (Hfixed : forall trip day,
            trip ∈ trips -> is_selected sel trip = true ->
            day ∈ Trip.days trip -> ItineraryDay.id day = dayId ->
            Array_sort (byTime localeCompare)
              (List.map (fun a => if same_id (Activity.id a) activityId
                                  then spread a updates else a)
                 (ItineraryDay.activities day))
            = Normal (ItineraryDay.activities day)).
  { intros trip day Htrip Hsel Hday Hid. rewrite map_fixed.
    - apply Array_sort_of_sorted.
      by apply (day_sorted_Sorted localeCompare trips trip day).
    - intros act Hact.
      destruct (same_id (Activity.id act) activityId) eqn:Hact_id; [|done].
      apply same_id_eq in Hact_id. by destruct (Hnone trip day act). }
  rewrite try_map_target_days_returns.
  - f_equal. apply map_target_days_fixed.
    intros trip day Htrip Hsel Hday Hid.
    unfold or_keep. by rewrite (Hfixed trip day).
  - intros trip day Htrip Hsel Hday Hid. eexists. by apply (Hfixed trip).
Qed.

(** C5. Deleting the same activity of the same day twice gives the trips
    that deleting it once gives. *)
Theorem handleDeleteActivity_idempotent sel dayId activityId trips :
  handleDeleteActivity sel dayId activityId
    (handleDeleteActivity sel dayId activityId trips)
  = handleDeleteActivity sel dayId activityId trips.
Proof.
  unfold handleDeleteActivity. rewrite List.map_map.
  apply List.map_ext. intros trip.
  destruct (is_selected sel trip) eqn:Hsel; simpl.
  - rewrite is_selected_with_days, Hsel. simpl.
    unfold with_days; simpl. f_equal.
    rewrite List.map_map. apply List.map_ext. intros day.
    destruct (String.eqb (ItineraryDay.id day) dayId) eqn:Hid; simpl.
    + rewrite Hid. unfold with_activities; simpl. f_equal. apply filter_twice.
    + by rewrite Hid.
  - by rewrite Hsel.
Qed.

(** ** The example comparator is a total preorder *)

Lemma String_compare_le_trans (a b c : string) :
  String.compare a b <> Gt -> String.compare b c <> Gt -> String.compare a c <> Gt.
Proof.
  revert b c. induction a as [|x a IH]; intros [|y b] [|z c]; simpl; try done.
  unfold Ascii.compare.
  destruct (N.compare_spec (N_of_ascii x) (N_of_ascii y)) as [Hxy|Hxy|Hxy];
    destruct (N.compare_spec (N_of_ascii y) (N_of_ascii z)) as [Hyz|Hyz|Hyz];
    destruct (N.compare_spec (N_of_ascii x) (N_of_ascii z)) as [Hxz|Hxz|Hxz];
    try done; try lia.
  apply IH.
Qed.

Lemma compareCodeUnits_ge (a b : string) :
  0 <= compareCodeUnits a b <-> String.compare b a <> Gt.
Proof.
  unfold compareCodeUnits. rewrite (String.compare_antisym a b).
  destruct (String.compare b a); cbn [CompOpp]; split; (done || lia).
Qed.

Lemma compareCodeUnits_total (a b : string) :
  0 <= compareCodeUnits a b \/ 0 <= compareCodeUnits b a.
Proof.
  rewrite !compareCodeUnits_ge, (String.compare_antisym a b).
  destruct (String.compare b a); cbn [CompOpp]; [left|left|right]; done.
Qed.

Lemma compareCodeUnits_trans (a b c : string) :
  0 <= compareCodeUnits b a -> 0 <= compareCodeUnits c b ->
  0 <= compareCodeUnits c a.
Proof. rewrite !compareCodeUnits_ge. apply String_compare_le_trans. Qed.

Lemma example_trip_sorted : Forall (trip_sorted compareCodeUnits) [example_trip].
Proof.
  repeat constructor; try (by eexists);
    eexists; (split; [reflexivity|by vm_compute]).
Qed.

Lemma handleAddActivity_undefined_time_witness :
  Forall (trip_sorted compareCodeUnits) [example_trip]
  /\ exists message,
       handleAddActivity compareCodeUnits (Some "trip-1") "a3" "day-1"
         (Some {| PartialActivity.id := None;
                  PartialActivity.time := Some None;
                  PartialActivity.title := Some (Some "Museu");
                  PartialActivity.location := Some None;
                  PartialActivity.lat := Some None;
                  PartialActivity.lng := Some None;
                  PartialActivity.notes := Some None;
                  PartialActivity.cost := Some None;
                  PartialActivity.type := Some (Some SIGHTSEEING) |})
         [example_trip]
       = Throw message.
Proof.
  split; [apply example_trip_sorted|].
  refine (proj2 (handleAddActivity_undefined_time compareCodeUnits
                   (Some "trip-1") "a3" "day-1" _ [example_trip] example_trip
                   {| ItineraryDay.id := "day-1";
                      ItineraryDay.date := "2024-01-10";
                      ItineraryDay.activities :=
                        [ example_activity "a1" "09:00" (Some 100);
                          example_activity "a2" "14:30" None ] |}
                   _ _ _ _ _ _)).
  - reflexivity.
  - apply list_elem_of_here.
  - reflexivity.
  - apply list_elem_of_here.
  - reflexivity.
  - discriminate.
Defined.

Lemma handleUpdateActivity_no_match_witness :
  handleUpdateActivity compareCodeUnits (Some "trip-1") "day-1" (Some "a9")
    PartialActivity.empty [example_trip] = Normal [example_trip].
Proof.
  apply handleUpdateActivity_no_match.
  - apply example_trip_sorted.
  - intros trip day act Htrip _ Hday Hid Hact.
    apply list_elem_of_singleton in Htrip as ->.
    simpl in Hday.
    apply elem_of_cons in Hday as [->|Hday];
      [|apply list_elem_of_singleton in Hday as ->; simpl in Hact; by apply not_elem_of_nil in Hact].
    simpl in Hact.
    apply elem_of_cons in Hact as [->|Hact];
      [done|apply list_elem_of_singleton in Hact as ->; done].
Defined.

(** ** Cost aggregation *)

Lemma or_zero_id (x : Z) : or_zero x = x.
Proof. unfold or_zero. destruct (Z.eqb_spec x 0); congruence. Qed.

Lemma opt_or_zero_default (c : option Z) : opt_or_zero c = default 0 c.
Proof. destruct c; simpl; [apply or_zero_id|done]. Qed.

Lemma cost_sum_app (l1 l2 : list Activity.t) :
  cost_sum (l1 ++ l2) = cost_sum l1 + cost_sum l2.
Proof. induction l1 as [|a l1 IH]; simpl; [done|]. fold (cost_sum (l1 ++ l2)). fold (cost_sum l1). lia. Qed.

Lemma day_total_sum (acts : list Activity.t) (acc : Z) :
  fold_left (fun dayTotal act => dayTotal + opt_or_zero (Activity.cost act)) acts acc
  = acc + cost_sum acts.
Proof.
  revert acc. induction acts as [|a acts IH]; intros acc; simpl; [lia|].
  rewrite IH, opt_or_zero_default. fold (cost_sum acts). lia.
Qed.

Lemma trip_total_sum (ds : list ItineraryDay.t) (acc : Z) :
  fold_left (fun total day =>
     total + or_zero
       (fold_left (fun dayTotal act => dayTotal + opt_or_zero (Activity.cost act))
          (ItineraryDay.activities day) 0)) ds acc
  = acc + cost_sum (concat (List.map ItineraryDay.activities ds)).
Proof.
  revert acc. induction ds as [|day ds IH]; intros acc; simpl; [lia|].
  rewrite IH, or_zero_id, day_total_sum, cost_sum_app. lia.
Qed.

(** C4. The total cost of a trip is the sum of the costs of all activities
    of all its days, an absent cost counting for zero; a trip whose two
    activities cost 100 and nothing totals 100. *)
Theorem calculateTotalCost_sum :
  (forall trip, calculateTotalCost (Some trip) = cost_sum (all_activities trip))
  /\ List.map Activity.cost (all_activities example_trip) = [Some 100; None]
  /\ calculateTotalCost (Some example_trip) = 100.
Proof.
  split; [|split; reflexivity].
  intros trip. unfold calculateTotalCost, all_activities.
  rewrite or_zero_id, trip_total_sum. lia.
Qed.

(** ** Persistence *)

Lemma loadEffect_returns JSON_parse w :
  exists w', loadEffect JSON_parse w = Normal w'.
Proof.
  unfold loadEffect.
  destruct (localStorage w !! STORAGE_KEY) as [text|]; [|by eexists].
  destruct (negb (String.eqb text EmptyString)); [|by eexists].
  destruct (JSON_parse text) as [[| | | |entries|]|]; simpl; try by eexists.
  destruct (0 <? Z.of_nat (length entries)); [|by eexists].
  destruct (List.filter isValidTrip entries); by eexists.
Qed.

Lemma filter_nil_of_length {A} (f : A -> bool) (l : list A) :
  (0 <? Z.of_nat (length l)) = false -> List.filter f l = [].
Proof. destruct l; simpl; [done|]. intros H. apply Z.ltb_ge in H. lia. Qed.

(** C8, as the code has it.  The load effect never raises.  A stored text
    that is not empty and does not parse is removed from storage and no trip
    is loaded; from a text that parses to an array exactly the entries that
    pass [isValidTrip] are loaded, in their order, and storage is left as it
    is. *)
Theorem loadEffect_discards_malformed JSON_parse ls :
  exists w',
    loadEffect JSON_parse (initial ls) = Normal w'
    /\ (forall text,
          ls !! STORAGE_KEY = Some text -> text <> EmptyString ->
          JSON_parse text = None ->
          trips w' = [] /\ localStorage w' = delete STORAGE_KEY ls)
    /\ (forall text entries,
          ls !! STORAGE_KEY = Some text -> text <> EmptyString ->
          JSON_parse text = Some (JArray entries) ->
          trips w' = List.filter isValidTrip entries /\ localStorage w' = ls)
    /\ Forall (fun trip => isValidTrip trip = true) (trips w').
Proof.
  destruct (loadEffect_returns JSON_parse (initial ls)) as [w' Hw'].
  exists w'. split; [done|].
  unfold loadEffect in Hw'. simpl in Hw'.
  split; [|split].
  - intros text Hls Htext Hparse. rewrite Hls in Hw'.
    apply String.eqb_neq in Htext. rewrite Htext, Hparse in Hw'. simpl in Hw'.
    by injection Hw' as <-.
  - intros text entries Hls Htext Hparse. rewrite Hls in Hw'.
    apply String.eqb_neq in Htext. rewrite Htext, Hparse in Hw'. simpl in Hw'.
    destruct (0 <? Z.of_nat (length entries)) eqn:Hlen.
    + destruct (List.filter isValidTrip entries) eqn:Hvalid;
        by injection Hw' as <-.
    + injection Hw' as <-. simpl. by rewrite filter_nil_of_length.
  - destruct (ls !! STORAGE_KEY) as [text|]; [|by injection Hw' as <-].
    destruct (negb (String.eqb text EmptyString)); [|by injection Hw' as <-].
    destruct (JSON_parse text) as [[| | | |entries|]|]; simpl in Hw';
      try by injection Hw' as <-.
    destruct (0 <? Z.of_nat (length entries)); [|by injection Hw' as <-].
    destruct (List.filter isValidTrip entries) eqn:Hvalid;
      injection Hw' as <-; simpl; [done|].
    rewrite <- Hvalid. apply Forall_forall. intros trip Htrip.
    apply list_elem_of_In, filter_In in Htrip. tauto.
Qed.

Lemma loadEffect_discards_malformed_witness :
  exists w',
    loadEffect example_JSON_parse (initial {[ STORAGE_KEY := example_text ]})
    = Normal w'
    /\ trips w' = [JObject [("id", JString "trip-1"); ("days", JArray [])]].
Proof.
  destruct (loadEffect_discards_malformed example_JSON_parse
              {[ STORAGE_KEY := example_text ]}) as (w' & Hload & _ & Harray & _).
  exists w'. split; [done|].
  destruct (Harray example_text example_entries) as [-> _]; try done.
Defined.

(** C8 as stated fails on the empty text: it does not parse, yet the load
    effect leaves it in storage. *)
Lemma loadEffect_keeps_empty_text :
  example_JSON_parse EmptyString = None
  /\ loadEffect example_JSON_parse (initial {[ STORAGE_KEY := EmptyString ]})
     = Normal (initial {[ STORAGE_KEY := EmptyString ]})
  /\ localStorage (initial {[ STORAGE_KEY := EmptyString ]}) !! STORAGE_KEY
     = Some EmptyString.
Proof. done. Qed.

(** C9. When the trip list is empty the persist effect removes the stored
    key instead of writing an empty array, and the load effect of a start
    from that storage loads no trip. *)
Theorem persist_empty_clears_storage JSON_parse JSON_stringify w :
  trips w = [] ->
  let ls := localStorage (persistEffect JSON_stringify w) in
  ls = delete STORAGE_KEY (localStorage w)
  /\ ls !! STORAGE_KEY = None
  /\ exists w',
       loadEffect JSON_parse (initial ls) = Normal w' /\ trips w' = [].
Proof.
  intros Hempty. unfold persistEffect. rewrite Hempty. simpl.
  repeat split.
  - apply lookup_delete_eq.
  - exists (initial (delete STORAGE_KEY (localStorage w))).
    unfold loadEffect. simpl. by rewrite lookup_delete_eq.
Qed.

Lemma persist_empty_clears_storage_witness :
  let w := {| trips := []; selectedTripId := Some JNull;
              localStorage := {[ STORAGE_KEY := example_text ]} |} in
  localStorage (persistEffect (fun _ => example_text) w) !! STORAGE_KEY = None.
Proof.
  apply (persist_empty_clears_storage example_JSON_parse (fun _ => example_text)).
  reflexivity.
Defined.

(** ** The assistant bridge *)

Section ChatPanelFacts.
Context {State : Type}.
Variable onAddActivity : option json -> object -> State -> State.
Variable onUpdateActivity :
  option json -> option json -> object -> State -> State.
Variable onRemoveActivity : option json -> option json -> State -> State.
Variable tripDetails : State -> string.
Variable fetch_json : string -> State -> completion (option json) * State.

Abbreviation tool :=
  (executeTool onAddActivity onUpdateActivity onRemoveActivity tripDetails
     fetch_json).
Abbreviation tools_loop :=
  (executeTools_loop onAddActivity onUpdateActivity onRemoveActivity
     tripDetails fetch_json).
Abbreviation tools :=
  (executeTools onAddActivity onUpdateActivity onRemoveActivity tripDetails
     fetch_json).

Lemma executeTool_echo call s :
  response_id (tool call s).1 = call_id call
  /\ response_name (tool call s).1 = call_name call.
Proof.
  unfold executeTool.
  by destruct (if name_is _ _ then _ else _).
Qed.

Lemma name_is_false name k :
  name <> Some (JString k) -> name_is name k = false.
Proof.
  destruct name as [[| | |s| |]|]; simpl; try done.
  intros Hne. apply String.eqb_neq. congruence.
Qed.

Lemma executeTool_unknown call s :
  (forall k, k ∈ tool_names -> call_name call <> Some (JString k)) ->
  tool call s
  = ({| response_id := call_id call;
        response_name := call_name call;
        response_result := "Ferramenta desconhecida." |}, s).
Proof.
  intros Hunknown. unfold executeTool.
  rewrite !name_is_false; [done|apply Hunknown; unfold tool_names..];
    repeat (first [by apply list_elem_of_here | apply list_elem_of_further]).
Qed.

(** The loop appends to [responses] one response per call, in order, each
    being the response of [executeTool] for that call in the state reached
    so far. *)
Lemma executeTools_loop_responses calls responses s :
  exists more,
    (tools_loop calls responses s).1 = responses ++ more
    /\ Forall2 (fun call r => exists s', r = (tool call s').1) calls more.
Proof.
  revert responses s. induction calls as [|call calls IH]; intros responses s.
  - exists []. simpl. by rewrite app_nil_r.
  - simpl. destruct (tool call s) as [r s'] eqn:Htool.
    destruct (IH (responses ++ [r]) s') as (more & Hmore & Hall).
    exists (r :: more). split.
    + by rewrite Hmore, <- app_assoc.
    + constructor; [|done]. exists s. by rewrite Htool.
Qed.

(** C7. A batch yields one response per call, in the order of the calls,
    each carrying the id and the name of its call; a call whose name is none
    of the five tool names is answered with the generic failure text. *)
Theorem executeTools_responses calls s :
  let responses := (tools calls s).1 in
  length responses = length calls
  /\ List.map response_id responses = List.map call_id calls
  /\ List.map response_name responses = List.map call_name calls
  /\ (forall (i : nat) call,
        calls !! i = Some call ->
        (forall k, k ∈ tool_names -> call_name call <> Some (JString k)) ->
        exists r,
          responses !! i = Some r
          /\ response_result r = "Ferramenta desconhecida.").
Proof.
  unfold executeTools.
  destruct (executeTools_loop_responses calls [] s) as (more & -> & Hall).
  simpl. clear s. repeat split.
  - symmetry. by eapply Forall2_length.
  - induction Hall as [|call r calls more [s' ->] _ IH]; simpl; [done|].
    f_equal; [apply executeTool_echo|done].
  - induction Hall as [|call r calls more [s' ->] _ IH]; simpl; [done|].
    f_equal; [apply executeTool_echo|done].
  - intros i call Hcall Hunknown.
    destruct (Forall2_lookup_l _ _ _ _ _ Hall Hcall) as (r & Hr & s' & ->).
    exists (tool call s').1. split; [done|].
    by rewrite executeTool_unknown.
Qed.
End ChatPanelFacts.

Lemma executeTools_responses_witness :
  exists r,
    (executeTools recording_add recording_update recording_remove
       (fun _ => "{}") failing_fetch example_calls []).1 !! 1%nat = Some r
    /\ response_result r = "Ferramenta desconhecida.".
Proof.
  apply (proj2 (proj2 (proj2
          (executeTools_responses recording_add recording_update
             recording_remove (fun _ => "{}") failing_fetch example_calls []))))
    with (call := {| call_id := Some (JString "c2");
                     call_name := Some (JString "book_flight");
                     call_args := None |}).
  - reflexivity.
  - intros k Hk. unfold tool_names in Hk.
    repeat (apply elem_of_cons in Hk as [->|Hk]; [discriminate|]).
    by apply not_elem_of_nil in Hk.
Defined.

(** ** What [update_activity] forwards *)

Lemma object_get_app (o1 o2 : object) (k : string) :
  object_get (o1 ++ o2) k
  = match object_get o2 k with
    | Some v => Some v
    | None => object_get o1 k
    end.
Proof.
  unfold object_get. rewrite rev_app_distr.
  induction (rev o2) as [|[k' v] o IH]; simpl; [done|].
  destruct (String.eqb k' k); [done|apply IH].
Qed.

Lemma object_get_spread_if (cond : bool) (k' k : string) (v : option json) :
  object_get (spread_if cond k' v) k
  = if cond && String.eqb k' k then Some v else None.
Proof.
  unfold object_get, spread_if. destruct cond; simpl; [|done].
  by destruct (String.eqb k' k).
Qed.

Lemma get_defined (args : option json) (k : string) :
  args <> None -> args <> Some JNull -> get args k = Normal (prop_of args k).
Proof. by destruct args as [[| | | | |]|]. Qed.

Lemma update_activity_updates_defined args :
  args <> None -> args <> Some JNull ->
  update_activity_updates args
  = Normal
      (spread_if (defined (prop_of args "cost")) "cost" (prop_of args "cost")
       ++ spread_if (truthy (prop_of args "notes")) "notes" (prop_of args "notes")
       ++ spread_if (truthy (prop_of args "time")) "time" (prop_of args "time")
       ++ spread_if (truthy (prop_of args "title")) "title" (prop_of args "title")
       ++ spread_if (truthy (prop_of args "location")) "location"
            (prop_of args "location")
       ++ spread_if (defined (prop_of args "lat")) "lat" (prop_of args "lat")
       ++ spread_if (defined (prop_of args "lng")) "lng" (prop_of args "lng")).
Proof.
  intros Hundefined Hnull. unfold update_activity_updates.
  by rewrite !get_defined.
Qed.

Lemma update_activity_updates_inv args updates :
  update_activity_updates args = Normal updates ->
  updates
  = (spread_if (defined (prop_of args "cost")) "cost" (prop_of args "cost")
     ++ spread_if (truthy (prop_of args "notes")) "notes" (prop_of args "notes")
     ++ spread_if (truthy (prop_of args "time")) "time" (prop_of args "time")
     ++ spread_if (truthy (prop_of args "title")) "title" (prop_of args "title")
     ++ spread_if (truthy (prop_of args "location")) "location"
          (prop_of args "location")
     ++ spread_if (defined (prop_of args "lat")) "lat" (prop_of args "lat")
     ++ spread_if (defined (prop_of args "lng")) "lng" (prop_of args "lng")).
Proof.
  unfold update_activity_updates.
  destruct args as [[| | | | |]|]; simpl; try discriminate; congruence.
Qed.

Ltac object_get_simpl :=
  rewrite !object_get_app, !object_get_spread_if; simpl;
  rewrite ?andb_false_r, ?andb_true_r.

Lemma update_forwards_truthy args updates k :
  update_activity_updates args = Normal updates ->
  k ∈ ["notes"; "time"; "title"; "location"] ->
  object_get updates k
  = if truthy (prop_of args k) then Some (prop_of args k) else None.
Proof.
  intros ->%update_activity_updates_inv Hk.
  repeat (apply elem_of_cons in Hk as [->|Hk]);
    [..|by apply not_elem_of_nil in Hk];
    object_get_simpl; by destruct (truthy _).
Qed.

Lemma update_forwards_defined args updates k :
  update_activity_updates args = Normal updates ->
  k ∈ ["cost"; "lat"; "lng"] ->
  object_get updates k
  = if defined (prop_of args k) then Some (prop_of args k) else None.
Proof.
  intros ->%update_activity_updates_inv Hk.
  repeat (apply elem_of_cons in Hk as [->|Hk]);
    [..|by apply not_elem_of_nil in Hk];
    object_get_simpl; by destruct (defined _).
Qed.

Lemma update_forwards_nothing_else args updates :
  update_activity_updates args = Normal updates ->
  object_get updates "id" = None /\ object_get updates "type" = None.
Proof. intros ->%update_activity_updates_inv. split; by object_get_simpl. Qed.

(** What a reading of an object at [Partial<Activity>] holds. *)
Lemma to_PartialActivity_inv (o : object) (p : PartialActivity.t) :
  to_PartialActivity o = Some p ->
  optional_string (object_get o "id") = Some (PartialActivity.id p)
  /\ optional_string (object_get o "time") = Some (PartialActivity.time p)
  /\ optional_string (object_get o "title") = Some (PartialActivity.title p)
  /\ optional_string (object_get o "location")
     = Some (PartialActivity.location p)
  /\ optional_string (object_get o "notes") = Some (PartialActivity.notes p)
  /\ optional_number (object_get o "cost") = Some (PartialActivity.cost p)
  /\ optional_type (object_get o "type") = Some (PartialActivity.type p).
Proof.
  unfold to_PartialActivity. intros Hp.
  destruct (optional_string (object_get o "id")); [|done].
  destruct (optional_string (object_get o "time")); [|done].
  destruct (optional_string (object_get o "title")); [|done].
  destruct (optional_string (object_get o "location")); [|done].
  destruct (optional_number (object_get o "lat")); [|done].
  destruct (optional_number (object_get o "lng")); [|done].
  destruct (optional_string (object_get o "notes")); [|done].
  destruct (optional_number (object_get o "cost")); [|done].
  destruct (optional_type (object_get o "type")); [|done].
  cbn in Hp. injection Hp as <-. done.
Qed.

Lemma optional_string_absent (v : option (option json)) r :
  v = None -> optional_string v = Some r -> r = None.
Proof. intros -> [= <-]. done. Qed.

Lemma to_PartialActivity_absent (o : object) (p : PartialActivity.t) :
  to_PartialActivity o = Some p ->
  (object_get o "time" = None -> PartialActivity.time p = None)
  /\ (object_get o "title" = None -> PartialActivity.title p = None)
  /\ (object_get o "notes" = None -> PartialActivity.notes p = None)
  /\ (object_get o "location" = None -> PartialActivity.location p = None).
Proof.
  intros (_ & Htime & Htitle & Hlocation & Hnotes & _)%to_PartialActivity_inv.
  repeat split; intros Habsent; by eapply optional_string_absent.
Qed.

Lemma add_activity_data_defined args :
  args <> None -> args <> Some JNull ->
  add_activity_data args
  = Normal
      [("title", prop_of args "title"); ("time", prop_of args "time");
       ("type", prop_of args "type"); ("location", prop_of args "location");
       ("notes", prop_of args "notes"); ("cost", prop_of args "cost");
       ("lat", prop_of args "lat"); ("lng", prop_of args "lng")].
Proof.
  intros Hundefined Hnull. unfold add_activity_data.
  by rewrite !get_defined.
Qed.

Section Dispatch.
Context {State : Type}.
Variable onAddActivity : option json -> object -> State -> State.
Variable onUpdateActivity :
  option json -> option json -> object -> State -> State.
Variable onRemoveActivity : option json -> option json -> State -> State.
Variable tripDetails : State -> string.
Variable fetch_json : string -> State -> completion (option json) * State.

Lemma executeTool_update call s :
  call_name call = Some (JString "update_activity") ->
  call_args call <> None -> call_args call <> Some JNull ->
  exists updates,
    update_activity_updates (call_args call) = Normal updates
    /\ executeTool onAddActivity onUpdateActivity onRemoveActivity tripDetails
         fetch_json call s
       = ({| response_id := call_id call;
             response_name := call_name call;
             response_result := "Atividade atualizada." |},
          onUpdateActivity (prop_of (call_args call) "dayId")
            (prop_of (call_args call) "activityId") updates s).
Proof.
  intros Hname Hundefined Hnull. eexists. split.
  - by apply update_activity_updates_defined.
  - unfold executeTool. rewrite Hname.
    cbn [name_is String.eqb Ascii.eqb Bool.eqb].
    rewrite !get_defined, update_activity_updates_defined by done.
    reflexivity.
Qed.

Lemma executeTool_add call s :
  call_name call = Some (JString "add_activity") ->
  call_args call <> None -> call_args call <> Some JNull ->
  exists data,
    add_activity_data (call_args call) = Normal data
    /\ executeTool onAddActivity onUpdateActivity onRemoveActivity tripDetails
         fetch_json call s
       = ({| response_id := call_id call;
             response_name := call_name call;
             response_result :=
               "Atividade '" +:+ ToString (prop_of (call_args call) "title")
                 +:+ "' adicionada com sucesso." |},
          onAddActivity (prop_of (call_args call) "dayId") data s).
Proof.
  intros Hname Hundefined Hnull. eexists. split.
  - by apply add_activity_data_defined.
  - unfold executeTool. rewrite Hname.
    cbn [name_is String.eqb Ascii.eqb Bool.eqb].
    rewrite !get_defined, add_activity_data_defined by done.
    reflexivity.
Qed.

(** C10. For an [update_activity] call the bridge invokes the update
    callback once, with the day id and the activity id of the call and with
    an object to which the keys notes, time, title and location are
    forwarded exactly when their argument is truthy, so that an empty
    string is not forwarded and the stored field stays as it is, and to
    which the keys cost, lat and lng are forwarded exactly when their
    argument is not [undefined], the number 0 included. *)
Theorem update_activity_forwards call s :
  call_name call = Some (JString "update_activity") ->
  call_args call <> None -> call_args call <> Some JNull ->
  let args := call_args call in
  exists updates,
    executeTool onAddActivity onUpdateActivity onRemoveActivity tripDetails
      fetch_json call s
    = ({| response_id := call_id call;
          response_name := call_name call;
          response_result := "Atividade atualizada." |},
       onUpdateActivity (prop_of args "dayId") (prop_of args "activityId")
         updates s)
    /\ (forall k, k ∈ ["notes"; "time"; "title"; "location"] ->
        object_get updates k
        = if truthy (prop_of args k) then Some (prop_of args k) else None)
    /\ (forall k, k ∈ ["cost"; "lat"; "lng"] ->
        object_get updates k
        = if defined (prop_of args k) then Some (prop_of args k) else None)
    /\ (forall k, k ∈ ["cost"; "lat"; "lng"] ->
        prop_of args k = Some (JNumber 0) ->
        object_get updates k = Some (Some (JNumber 0)))
    /\ (forall k, k ∈ ["notes"; "time"; "title"; "location"] ->
        prop_of args k = Some (JString EmptyString) ->
        object_get updates k = None)
    /\ (forall a p,
        to_PartialActivity updates = Some p ->
        (prop_of args "time" = Some (JString EmptyString) ->
         Activity.time (spread a p) = Activity.time a)
        /\ (prop_of args "title" = Some (JString EmptyString) ->
         Activity.title (spread a p) = Activity.title a)
        /\ (prop_of args "notes" = Some (JString EmptyString) ->
         Activity.notes (spread a p) = Activity.notes a)
        /\ (prop_of args "location" = Some (JString EmptyString) ->
         Activity.location (spread a p) = Activity.location a)).
Proof.
  intros Hname Hundefined Hnull args.
  destruct (executeTool_update call s Hname Hundefined Hnull)
    as (updates & Hupdates & Htool).
  exists updates. split; [exact Htool|]. fold args in Hupdates.
  assert (Hempty : forall k, k ∈ ["notes"; "time"; "title"; "location"] ->
            prop_of args k = Some (JString EmptyString) ->
            object_get updates k = None).
  { intros k Hk Harg.
    rewrite (update_forwards_truthy args updates k Hupdates Hk).
    by rewrite Harg. }
  split; [intros k Hk; by apply update_forwards_truthy|].
  split; [intros k Hk; by apply update_forwards_defined|].
  split.
  { intros k Hk Harg.
    rewrite (update_forwards_defined args updates k Hupdates Hk).
    by rewrite Harg. }
  split; [done|].
  intros a p Hp.
  destruct (to_PartialActivity_absent updates p Hp)
    as (Htime & Htitle & Hnotes & Hlocation).
  repeat split; intros Harg; simpl.
  - rewrite Htime; [done|]. apply Hempty; [|done].
    apply list_elem_of_further, list_elem_of_here.
  - rewrite Htitle; [done|]. apply Hempty; [|done].
    do 2 apply list_elem_of_further. apply list_elem_of_here.
  - rewrite Hnotes; [done|]. apply Hempty; [|done]. apply list_elem_of_here.
  - rewrite Hlocation; [done|]. apply Hempty; [|done].
    do 3 apply list_elem_of_further. apply list_elem_of_here.
Qed.

(** X22. The assistant can neither choose nor change an id.  Whatever the
    arguments of the call hold, the object the bridge passes for an
    [add_activity] call has no id key, and the one it passes for an
    [update_activity] call has neither an id nor a type key; so, read at
    the declared type, the data leave to the created activity its generated
    id, and the updates leave to the updated activity its id and type. *)
Theorem assistant_cannot_set_id call s :
  call_args call <> None -> call_args call <> Some JNull ->
  (call_name call = Some (JString "add_activity") ->
   exists data,
     (executeTool onAddActivity onUpdateActivity onRemoveActivity tripDetails
        fetch_json call s).2
     = onAddActivity (prop_of (call_args call) "dayId") data s
     /\ object_get data "id" = None
     /\ forall p freshId,
          to_PartialActivity data = Some p ->
          Activity.id (newActivity freshId (Some p)) = Some freshId)
  /\ (call_name call = Some (JString "update_activity") ->
      exists updates,
        (executeTool onAddActivity onUpdateActivity onRemoveActivity
           tripDetails fetch_json call s).2
        = onUpdateActivity (prop_of (call_args call) "dayId")
            (prop_of (call_args call) "activityId") updates s
        /\ object_get updates "id" = None
        /\ object_get updates "type" = None
        /\ forall a p,
             to_PartialActivity updates = Some p ->
             Activity.id (spread a p) = Activity.id a
             /\ Activity.type (spread a p) = Activity.type a).
Proof.
  intros Hundefined Hnull. split; intros Hname.
  - destruct (executeTool_add call s Hname Hundefined Hnull)
      as (data & Hdata & ->).
    exists data. split; [done|].
    rewrite add_activity_data_defined in Hdata by done.
    injection Hdata as <-. split; [done|].
    intros p freshId (Hid & _)%to_PartialActivity_inv.
    cbn in Hid. injection Hid as Hid. cbn. by rewrite <- Hid.
  - destruct (executeTool_update call s Hname Hundefined Hnull)
      as (updates & Hupdates & ->).
    exists updates. split; [done|].
    destruct (update_forwards_nothing_else _ _ Hupdates) as [Hid Htype].
    split; [done|]. split; [done|].
    intros a p (Hpid & _ & _ & _ & _ & _ & Hptype)%to_PartialActivity_inv.
    rewrite Hid in Hpid. rewrite Htype in Hptype.
    cbn in Hpid, Hptype. injection Hpid as Hpid. injection Hptype as Hptype.
    cbn. by rewrite <- Hpid, <- Hptype.
Qed.

(** X23. The defaults of a new activity do not reach an activity the
    assistant adds.  For an [add_activity] call the bridge always passes
    the eight keys title, time, type, location, notes, cost, lat and lng,
    each with the argument of the call, [undefined] included; so, read at
    the declared type, a call without cost creates an activity whose cost
    is [undefined] rather than 0, and a call without time one whose time is
    [undefined] rather than 12:00. *)
Theorem add_activity_defaults_overridden call s :
  call_name call = Some (JString "add_activity") ->
  call_args call <> None -> call_args call <> Some JNull ->
  let args := call_args call in
  exists data,
    (executeTool onAddActivity onUpdateActivity onRemoveActivity tripDetails
       fetch_json call s).2
    = onAddActivity (prop_of args "dayId") data s
    /\ (forall k,
          k ∈ ["title"; "time"; "type"; "location"; "notes"; "cost"; "lat";
               "lng"] ->
          object_get data k = Some (prop_of args k))
    /\ forall p freshId,
         to_PartialActivity data = Some p ->
         (prop_of args "cost" = None ->
          Activity.cost (newActivity freshId (Some p)) = None)
         /\ (prop_of args "time" = None ->
          Activity.time (newActivity freshId (Some p)) = None).
Proof.
  intros Hname Hundefined Hnull args.
  destruct (executeTool_add call s Hname Hundefined Hnull)
    as (data & Hdata & ->).
  exists data. split; [done|].
  rewrite add_activity_data_defined in Hdata by done.
  injection Hdata as <-. fold args. split.
  - intros k Hk.
    repeat (apply elem_of_cons in Hk as [->|Hk]);
      [..|by apply not_elem_of_nil in Hk]; reflexivity.
  - intros p freshId (_ & Htime & _ & _ & _ & Hcost & _)%to_PartialActivity_inv.
    cbn in Htime, Hcost. split; intros Habsent.
    + rewrite Habsent in Hcost. cbn in Hcost. injection Hcost as Hcost.
      cbn. by rewrite <- Hcost.
    + rewrite Habsent in Htime. cbn in Htime. injection Htime as Htime.
      cbn. by rewrite <- Htime.
Qed.
End Dispatch.

Lemma update_activity_forwards_witness :
  exists updates,
    executeTool recording_add recording_update recording_remove
      (fun _ => "{}") failing_fetch
      {| call_id := Some (JString "c1");
         call_name := Some (JString "update_activity");
         call_args := example_update_args |} []
    = ({| response_id := Some (JString "c1");
          response_name := Some (JString "update_activity");
          response_result := "Atividade atualizada." |},
       ["update day-1 a1"])
    /\ object_get updates "time" = None
    /\ object_get updates "cost" = Some (Some (JNumber 0)).
Proof.
  destruct (update_activity_forwards recording_add recording_update
              recording_remove (fun _ => "{}") failing_fetch
              {| call_id := Some (JString "c1");
                 call_name := Some (JString "update_activity");
                 call_args := example_update_args |} [])
    as (updates & Htool & _ & _ & Hzero & Hempty & _).
  - reflexivity.
  - discriminate.
  - discriminate.
  - exists updates. split; [exact Htool|]. split.
    + apply Hempty; [|reflexivity].
      apply list_elem_of_further, list_elem_of_here.
    + apply Hzero; [|reflexivity]. apply list_elem_of_here.
Defined.

Lemma assistant_cannot_set_id_witness :
  exists updates,
    (executeTool recording_add recording_update recording_remove
       (fun _ => "{}") failing_fetch
       {| call_id := Some (JString "c1");
          call_name := Some (JString "update_activity");
          call_args := example_update_args |} []).2
    = recording_update (Some (JString "day-1")) (Some (JString "a1")) updates []
    /\ object_get updates "id" = None.
Proof.
  destruct (proj2 (assistant_cannot_set_id recording_add recording_update
                     recording_remove (fun _ => "{}") failing_fetch
                     {| call_id := Some (JString "c1");
                        call_name := Some (JString "update_activity");
                        call_args := example_update_args |} [] ltac:(discriminate) ltac:(discriminate))
              eq_refl) as (updates & Htool & Hid & _).
  exists updates. split; [exact Htool|exact Hid].
Defined.

Lemma add_activity_defaults_overridden_witness :
  exists data,
    (executeTool recording_add recording_update recording_remove
       (fun _ => "{}") failing_fetch
       {| call_id := Some (JString "c4");
          call_name := Some (JString "add_activity");
          call_args :=
            Some (JObject [("dayId", JString "day-1");
                           ("title", JString "Museu")]) |} []).2
    = recording_add (Some (JString "day-1")) data []
    /\ object_get data "time" = Some None
    /\ forall p,
         to_PartialActivity data = Some p ->
         Activity.time (newActivity "a9" (Some p)) = None.
Proof.
  destruct (add_activity_defaults_overridden recording_add recording_update
              recording_remove (fun _ => "{}") failing_fetch
              {| call_id := Some (JString "c4");
                 call_name := Some (JString "add_activity");
                 call_args :=
                   Some (JObject [("dayId", JString "day-1");
                                  ("title", JString "Museu")]) |} [])
    as (data & Htool & Hkeys & Htyped).
  - reflexivity.
  - discriminate.
  - discriminate.
  - exists data. split; [exact Htool|]. split.
    + apply (Hkeys "time"). apply list_elem_of_further, list_elem_of_here.
    + intros p Hp. by apply (proj2 (Htyped p "a9" Hp)).
Defined.

(** ** The calendar *)

Example days_from_civil_epoch :
  days_from_civil 1970 1 1 = 0 /\ days_from_civil 2000 3 1 = 11017
  /\ days_from_civil 2024 1 10 = 19732.
Proof. repeat split; reflexivity. Qed.

Example civil_from_days_leap_day :
  civil_from_days 19782 = (2024, 2, 29) /\ civil_from_days 19783 = (2024, 3, 1)
  /\ civil_from_days (-1) = (1969, 12, 31).
Proof. repeat split; reflexivity. Qed.

Example Date_parse_date_only :
  Date_parse "2024-01-10" = Some 1704844800000
  /\ Date_parse "2024-02-30" = None
  /\ Date_parse "10/01/2024" = None.
Proof. repeat split; reflexivity. Qed.


(** [civil_from_days] is inverted by [days_from_civil], and its month lies
    between 1 and 12. *)
Lemma civil_from_days_inv (z : Z) :
  days_from_civil (civil_from_days z).1.1 (civil_from_days z).1.2
    (civil_from_days z).2 = z
  /\ 1 <= (civil_from_days z).1.2 <= 12.
Proof.
  unfold civil_from_days, days_from_civil. cbv zeta. simpl fst. simpl snd.
  set (doe := (z + 719468) mod 146097).
  set (era := (z + 719468) / 146097).
  assert (Hdoe : 0 <= doe < 146097) by (apply Z.mod_pos_bound; lia).
  assert (Hz : z + 719468 = 146097 * era + doe) by (apply Z.div_mod; lia).
  clearbody doe era.
  set (yoe := (doe - doe / 1460 + doe / 36524 - doe / 146096) / 365).
  assert (Hyoe : 0 <= yoe <= 399) by (subst yoe; Z.div_mod_to_equations; lia).
  set (q4 := yoe / 4). set (q100 := yoe / 100).
  set (doy := doe - (365 * yoe + q4 - q100)).
  assert (Hdoy : 0 <= doy <= 365)
    by (subst doy q4 q100 yoe; Z.div_mod_to_equations; lia).
  assert (Hdoy_eq : doe = doy + 365 * yoe + q4 - q100) by (subst doy; lia).
  clearbody doy yoe.
  set (mp := (5 * doy + 2) / 153).
  assert (Hmp : 0 <= mp <= 11) by (subst mp; Z.div_mod_to_equations; lia).
  clearbody mp.
  set (f := (153 * mp + 2) / 5).
  destruct (Z.ltb_spec mp 10).
  - destruct (Z.leb_spec (mp + 3) 2); [lia|].
    destruct (Z.ltb_spec 2 (mp + 3)); [|lia].
    split; [|lia].
    replace ((yoe + era * 400) / 400) with era by (Z.div_mod_to_equations; lia).
    replace (mp + 3 - 3) with mp by lia. fold f.
    replace (yoe + era * 400 - era * 400) with yoe by lia. fold q4 q100.
    lia.
  - destruct (Z.leb_spec (mp - 9) 2); [|lia].
    destruct (Z.ltb_spec 2 (mp - 9)); [lia|].
    split; [|lia].
    replace (yoe + era * 400 + 1 - 1) with (yoe + era * 400) by lia.
    replace ((yoe + era * 400) / 400) with era by (Z.div_mod_to_equations; lia).
    replace (mp - 9 + 9) with mp by lia. fold f.
    replace (yoe + era * 400 - era * 400) with yoe by lia. fold q4 q100.
    lia.
Qed.

Lemma days_from_civil_day (y m d d' : Z) :
  days_from_civil y m d' = days_from_civil y m d - d + d'.
Proof. unfold days_from_civil. lia. Qed.

(** [MakeDay] on the year and month of a day number changes only the day of
    the month. *)
Lemma MakeDay_civil (z dt : Z) :
  MakeDay (civil_from_days z).1.1 ((civil_from_days z).1.2 - 1) dt
  = z - (civil_from_days z).2 + dt.
Proof.
  destruct (civil_from_days_inv z) as [Hinv Hm].
  unfold MakeDay.
  replace (((civil_from_days z).1.2 - 1) / 12) with 0
    by (Z.div_mod_to_equations; lia).
  replace (((civil_from_days z).1.2 - 1) mod 12 + 1) with (civil_from_days z).1.2
    by (Z.div_mod_to_equations; lia).
  rewrite Z.add_0_r.
  rewrite (days_from_civil_day _ _ (civil_from_days z).2 1), Hinv. lia.
Qed.

Section LocalTimeFacts.
Variable tz : Z.

Lemma local_noon_day (day : Z) :
  (local_noon tz day + tz) / msPerDay = day
  /\ (local_noon tz day + tz) mod msPerDay = 43200000.
Proof. unfold local_noon, msPerDay. Z.div_mod_to_equations. lia. Qed.

(** One step of the loop: [current.setDate(current.getDate() + 1)] moves
    from noon of a day to noon of the next. *)
Lemma setDate_next (day : Z) :
  setDate tz (local_noon tz day)
    (default 0 (getDate tz (Some (local_noon tz day))) + 1)
  = local_noon tz (day + 1).
Proof.
  unfold setDate, getDate, local_civil. cbn [from_option id].
  destruct (local_noon_day day) as [-> ->].
  pose proof (MakeDay_civil day ((civil_from_days day).2 + 1)) as Hmake.
  destruct (civil_from_days day) as [[y m] d]. cbn [fst snd] in *.
  rewrite Hmake. unfold local_noon. lia.
Qed.

(** The loop from noon of [day] up to noon of [last] pushes one entry per
    day, in order. *)
Lemma generateDays_loop_closed (n fuel : nat) (day last : Z)
    (days : list ItineraryDay.t) :
  Z.of_nat n = Z.max 0 (last - day + 1) ->
  (n < fuel)%nat ->
  generateDays_loop tz fuel (Some (local_noon tz day)) (Some (local_noon tz last))
    days
  = Some (days ++ List.map (day_entry tz) (seqZ day (Z.of_nat n))).
Proof.
  revert fuel day days. induction n as [|n IH]; intros fuel day days Hn Hfuel.
  - destruct fuel as [|fuel]; [lia|]. simpl.
    destruct (Z.leb_spec (local_noon tz day) (local_noon tz last)) as [Hle|_].
    + unfold local_noon, msPerDay in Hle. lia.
    + by rewrite app_nil_r.
  - destruct fuel as [|fuel]; [lia|]. simpl generateDays_loop.
    destruct (Z.leb_spec (local_noon tz day) (local_noon tz last)) as [_|Hgt].
    + rewrite setDate_next, IH by lia.
      rewrite (seqZ_cons day (Z.of_nat (S n))) by lia.
      replace (Z.pred (Z.of_nat (S n))) with (Z.of_nat n) by lia.
      replace (Z.succ day) with (day + 1) by lia.
      simpl. by rewrite <- app_assoc.
    + unfold local_noon, msPerDay in Hgt. lia.
Qed.
End LocalTimeFacts.
(** ** [generateDays] *)

Lemma Date_parse_midnight (s : string) (t : Z) :
  Date_parse s = Some t -> t mod msPerDay = 0.
Proof.
  unfold Date_parse. intros Hparse.
  destruct (list_ascii_of_string s)
    as [|y1 [|y2 [|y3 [|y4 [|s1 [|m1 [|m2 [|s2 [|d1 [|d2 [|]]]]]]]]]]];
    try discriminate.
  destruct (digit_of_ascii y1), (digit_of_ascii y2), (digit_of_ascii y3),
    (digit_of_ascii y4), (digit_of_ascii m1), (digit_of_ascii m2),
    (digit_of_ascii d1), (digit_of_ascii d2); try discriminate.
  match type of Hparse with (if ?c then _ else _) = _ => destruct c end;
    [|discriminate].
  injection Hparse as <-. apply Z.mod_mul. unfold msPerDay. lia.
Qed.

Section GenerateDaysFacts.
Variable tz : Z.

Lemma Date_local_getters (t : Z) :
  Date_local tz (getFullYear tz (Some t)) (getMonth tz (Some t))
    (getDate tz (Some t)) 12 0 0
  = Some (local_noon tz (constructed_day tz t)).
Proof.
  unfold Date_local, getFullYear, getMonth, getDate, constructed_day, local_noon.
  destruct (local_civil tz t) as [[y m] d]. cbn [fst snd].
  f_equal. lia.
Qed.

(** Outside the years 0 to 99 the constructor lands on the local day of its
    argument. *)
Lemma constructed_day_local (t : Z) :
  ~ (0 <= (local_civil tz t).1.1 <= 99) ->
  constructed_day tz t = (t + tz) / msPerDay.
Proof.
  intros Hyear. unfold constructed_day, local_civil in *.
  pose proof (MakeDay_civil ((t + tz) / msPerDay)
                (civil_from_days ((t + tz) / msPerDay)).2) as Hmake.
  destruct (civil_from_days ((t + tz) / msPerDay)) as [[y m] d].
  cbn [fst snd] in *.
  destruct (Z.leb_spec 0 y), (Z.leb_spec y 99); simpl; lia.
Qed.

(** Closed form of [generateDays] on two dates that parse: one entry per day
    from the day the start lands on to the day the end lands on. *)
Lemma generateDays_closed (fuel : nat) (start end_ : string) (ts te : Z) :
  Date_parse start = Some ts ->
  Date_parse end_ = Some te ->
  let first := constructed_day tz ts in
  let last := constructed_day tz te in
  (Z.to_nat (last - first + 1) < fuel)%nat ->
  generateDays tz fuel start end_
  = Some (List.map (day_entry tz) (seqZ first (last - first + 1))).
Proof.
  intros Hstart Hend first last Hfuel. unfold generateDays.
  rewrite Hstart, Hend, !Date_local_getters. fold first last.
  rewrite (generateDays_loop_closed tz (Z.to_nat (last - first + 1)));
    [|lia|done].
  rewrite app_nil_l. do 2 f_equal.
  unfold seqZ. by rewrite Nat2Z.id.
Qed.

(** A text that is not a date ends the loop at once. *)
Lemma generateDays_invalid (fuel : nat) (start end_ : string) :
  Date_parse start = None \/ Date_parse end_ = None ->
  generateDays tz (S fuel) start end_ = Some [].
Proof.
  unfold generateDays.
  intros [-> | ->];
    cbn [getFullYear getMonth getDate Date_local generateDays_loop]; [done|].
  by destruct (Date_local _ _ _ _ _ _).
Qed.

Lemma local_day_of_midnight (t : Z) :
  t mod msPerDay = 0 -> (t + tz) / msPerDay = t / msPerDay + tz / msPerDay.
Proof. unfold msPerDay. intros Ht. Z.div_mod_to_equations. lia. Qed.

(** The shift between the dates asked for and the dates of the entries: none
    in a zone from UTC to twelve hours ahead of it, one day back in a zone
    less than twelve hours behind UTC or more than twelve hours ahead. *)
Lemma date_shift :
  (0 <= tz <= 43200000 -> tz / msPerDay + (43200000 - tz) / msPerDay = 0)
  /\ (-43200000 < tz < 0 -> tz / msPerDay + (43200000 - tz) / msPerDay = -1)
  /\ (43200000 < tz < msPerDay ->
      tz / msPerDay + (43200000 - tz) / msPerDay = -1).
Proof.
  unfold msPerDay. split; [|split]; intros Htz; Z.div_mod_to_equations; lia.
Qed.

(** X13. What holds of [generateDays] in every zone, for dates whose local
    year is not one of 0 to 99 and a start on or before the end: there are
    (end - start + 1) entries with pairwise distinct ids, one for each of as
    many consecutive days; these begin [tz / msPerDay + (43200000 - tz) /
    msPerDay] days after the start date (see [date_shift]). *)
Lemma generateDays_entries (fuel : nat) (start end_ : string) (ts te : Z) :
  Date_parse start = Some ts ->
  Date_parse end_ = Some te ->
  ~ (0 <= (local_civil tz ts).1.1 <= 99) ->
  ~ (0 <= (local_civil tz te).1.1 <= 99) ->
  let s := ts / msPerDay in
  let e := te / msPerDay in
  s <= e ->
  (Z.to_nat (e - s + 1) < fuel)%nat ->
  exists days,
    generateDays tz fuel start end_ = Some days
    /\ Z.of_nat (length days) = e - s + 1
    /\ NoDup (List.map ItineraryDay.id days)
    /\ List.map ItineraryDay.date days
       = List.map iso_date_of_days
           (seqZ (s + tz / msPerDay + (43200000 - tz) / msPerDay) (e - s + 1)).
Proof.
  intros Hstart Hend Hys Hye s e Hse Hfuel.
  pose proof (generateDays_closed fuel start end_ ts te Hstart Hend) as Hclosed.
  cbv zeta in Hclosed.
  rewrite !constructed_day_local in Hclosed by done.
  rewrite !local_day_of_midnight in Hclosed by (by eapply Date_parse_midnight).
  fold s e in Hclosed.
  replace (e + tz / msPerDay - (s + tz / msPerDay) + 1) with (e - s + 1)
    in Hclosed by lia.
  specialize (Hclosed Hfuel).
  eexists. split; [exact Hclosed|].
  split; [|split].
  - rewrite length_map, length_seqZ. lia.
  - rewrite List.map_map.
    change (NoDup ((fun day => "day-" +:+ pretty (local_noon tz day))
                     <$> seqZ (s + tz / msPerDay) (e - s + 1))).
    apply NoDup_fmap_2; [|apply NoDup_seqZ].
    intros day1 day2 Heq. injection Heq as Heq.
    apply pretty_Z_inj in Heq. unfold local_noon, msPerDay in Heq. lia.
  - rewrite List.map_map.
    change (List.map (fun day => ItineraryDay.date (day_entry tz day)))
      with (List.map (fun day => iso_date_of_days (local_noon tz day / msPerDay))).
    generalize (s + tz / msPerDay). intros first.
    unfold seqZ.
    change (List.map ?f (?g <$> ?l)) with (List.map f (List.map g l)).
    rewrite !List.map_map. apply List.map_ext. intros i. f_equal.
    unfold local_noon, msPerDay. Z.div_mod_to_equations. lia.
Qed.

End GenerateDaysFacts.

(** C2 at its failing input.  In a zone three hours behind UTC the entries
    for a trip from 2024-01-10 to 2024-01-12 carry the dates 2024-01-09 to
    2024-01-11: the start date is read as midnight UTC, which is the evening
    before in local time. *)
Theorem generateDays_behind_UTC (extra : nat) :
  generateDays (-10800000) (4 + extra) "2024-01-10" "2024-01-12"
  = Some [ {| ItineraryDay.id := "day-1704812400000";
              ItineraryDay.date := "2024-01-09";
              ItineraryDay.activities := [] |};
           {| ItineraryDay.id := "day-1704898800000";
              ItineraryDay.date := "2024-01-10";
              ItineraryDay.activities := [] |};
           {| ItineraryDay.id := "day-1704985200000";
              ItineraryDay.date := "2024-01-11";
              ItineraryDay.activities := [] |} ].
Proof.
  assert (Hfirst : constructed_day (-10800000) 1704844800000 = 19731)
    by (vm_compute; reflexivity).
  assert (Hlast : constructed_day (-10800000) 1705017600000 = 19733)
    by (vm_compute; reflexivity).
  pose proof (generateDays_closed (-10800000) (4 + extra)
                "2024-01-10" "2024-01-12" 1704844800000 1705017600000
                eq_refl eq_refl) as Hclosed.
  cbv zeta in Hclosed. rewrite Hfirst, Hlast in Hclosed.
  rewrite Hclosed by lia. vm_compute. reflexivity.
Qed.


(** Within the years 0 to 99 the order of two dates can be lost as well:
    the year 0 has a 29 February, the year 1900 has none. *)
Example generateDays_year_zero :
  List.map ItineraryDay.date <$> generateDays 0 5 "0000-03-01" "0000-02-29"
  = Some ["1900-03-01"].
Proof. vm_compute. reflexivity. Qed.


(** * Further properties of the itinerary handlers *)

(** ** When the handlers return *)

Lemma spread_timed (a : Activity.t) (updates : PartialActivity.t) :
  timed a -> data_timed (Some updates) -> timed (spread a updates).
Proof.
  unfold timed, data_timed. cbn [spread Activity.time].
  destruct (PartialActivity.time updates) as [[time|]|]; cbn; done.
Qed.

Lemma newActivity_timed freshId data :
  data_timed data -> timed (newActivity freshId data).
Proof.
  intros Hdata. unfold newActivity. destruct data as [data|].
  - apply spread_timed; [by eexists|done].
  - by eexists.
Qed.

Lemma Array_sort_byTime_returns localeCompare (acts : list Activity.t) :
  Forall timed acts ->
  exists sorted, Array_sort (byTime localeCompare) acts = Normal sorted.
Proof.
  intros Hacts. apply Array_sort_returns.
  eapply Forall_impl; [exact Hacts|].
  intros a Ha b. rewrite byTime_timed by done. by eexists.
Qed.

Lemma handleAddActivity_returns localeCompare sel freshId dayId data trips :
  Forall (trip_sorted localeCompare) trips -> data_timed data ->
  exists trips',
    handleAddActivity localeCompare sel freshId dayId data trips = Normal trips'.
Proof.
  intros Hsorted Hdata. rewrite handleAddActivity_shape.
  eexists. apply try_map_target_days_returns.
  intros trip day Htrip _ Hday _.
  apply Array_sort_byTime_returns, Forall_app. split.
  - by apply (day_sorted_Sorted localeCompare trips trip day).
  - constructor; [|done]. by apply newActivity_timed.
Qed.

Lemma handleUpdateActivity_returns
    localeCompare sel dayId activityId updates trips :
  Forall (trip_sorted localeCompare) trips -> data_timed (Some updates) ->
  exists trips',
    handleUpdateActivity localeCompare sel dayId activityId updates trips
    = Normal trips'.
Proof.
  intros Hsorted Hdata. rewrite handleUpdateActivity_shape.
  eexists. apply try_map_target_days_returns.
  intros trip day Htrip _ Hday _.
  apply Array_sort_byTime_returns.
  destruct (day_sorted_Sorted localeCompare trips trip day) as [Htimed _];
    try done.
  apply Forall_map_preserved; [|done]. intros a Ha.
  destruct (same_id _ _); [by apply spread_timed|done].
Qed.

(** ** The sort invariant *)

Section ReducerFacts.
Variable localeCompare : string -> string -> Z.
Hypothesis localeCompare_total :
  forall a b, 0 <= localeCompare a b \/ 0 <= localeCompare b a.
Hypothesis localeCompare_trans :
  forall a b c,
    0 <= localeCompare b a -> 0 <= localeCompare c b -> 0 <= localeCompare c a.

Abbreviation sorted := (Forall (trip_sorted localeCompare)).

Lemma time_le_trans (a b c : Activity.t) :
  time_le localeCompare a b -> time_le localeCompare b c ->
  time_le localeCompare a c.
Proof.
  unfold time_le, byTime, time_text.
  intros (o1 & Hba & Ho1) (o2 & Hcb & Ho2).
  destruct (Activity.time b) as [tb|]; [|discriminate].
  destruct (Activity.time c) as [tc|]; [|discriminate].
  injection Hba as <-. injection Hcb as <-.
  eexists. split; [done|]. by eapply localeCompare_trans.
Qed.

Lemma sorted_after_sort (acts : list Activity.t) :
  Forall timed acts ->
  exists sorted,
    Array_sort (byTime localeCompare) acts = Normal sorted
    /\ Forall timed sorted
    /\ Sorted (time_le localeCompare) sorted.
Proof.
  intros Hacts.
  destruct (Array_sort_Sorted (byTime localeCompare)
              (fun a b => localeCompare (time_text a) (time_text b))
              (fun a b => localeCompare_total _ _) acts)
    as (sorted & Hsorted & Horder).
  - eapply Forall_impl; [exact Hacts|].
    intros a Ha b. by apply byTime_timed.
  - exists sorted. split; [done|]. split; [|done].
    by rewrite (Array_sort_Permutation _ _ _ Hsorted).
Qed.

Lemma map_target_days_sorted sel dayId f trips :
  sorted trips ->
  (forall trip day,
      trip ∈ trips -> is_selected sel trip = true ->
      day ∈ Trip.days trip -> ItineraryDay.id day = dayId ->
      Forall timed (f (ItineraryDay.activities day))
      /\ Sorted (time_le localeCompare) (f (ItineraryDay.activities day))) ->
  sorted (map_target_days sel dayId f trips).
Proof.
  intros Hsorted Hf. apply Forall_forall. intros trip' Htrip'.
  unfold map_target_days in Htrip'.
  apply list_elem_of_In, in_map_iff in Htrip' as (trip & <- & Htrip).
  apply list_elem_of_In in Htrip.
  assert (Htrip_sorted : trip_sorted localeCompare trip).
  { rewrite Forall_forall in Hsorted. by apply Hsorted. }
  destruct (is_selected sel trip) eqn:Hsel; cbn [negb]; [|done].
  unfold trip_sorted. cbn [with_days Trip.days].
  apply Forall_forall. intros day' Hday'.
  apply list_elem_of_In, in_map_iff in Hday' as (day & <- & Hday).
  apply list_elem_of_In in Hday.
  assert (Hday_sorted : day_sorted localeCompare day).
  { unfold trip_sorted in Htrip_sorted. rewrite Forall_forall in Htrip_sorted.
    by apply Htrip_sorted. }
  destruct (String.eqb (ItineraryDay.id day) dayId) eqn:Hid; [|done].
  apply String.eqb_eq in Hid. by apply (Hf trip).
Qed.

Lemma handleAddActivity_sorted sel freshId dayId data trips :
  sorted trips -> data_timed data ->
  exists trips',
    handleAddActivity localeCompare sel freshId dayId data trips = Normal trips'
    /\ sorted trips'.
Proof.
  intros Hsorted Hdata.
  destruct (handleAddActivity_returns localeCompare sel freshId dayId data
              trips Hsorted Hdata) as [trips' Hadd].
  exists trips'. split; [done|].
  rewrite handleAddActivity_shape in Hadd.
  apply try_map_target_days_inv in Hadd as [-> Hreturns].
  apply map_target_days_sorted; [done|].
  intros trip day Htrip Hsel Hday Hid.
  destruct (sorted_after_sort
              (ItineraryDay.activities day ++ [newActivity freshId data]))
    as (acts & Hacts & Htimed & Horder).
  - apply Forall_app. split.
    + by apply (day_sorted_Sorted localeCompare trips trip day).
    + constructor; [|done]. by apply newActivity_timed.
  - unfold or_keep. by rewrite Hacts.
Qed.

Lemma handleUpdateActivity_sorted sel dayId activityId updates trips :
  sorted trips -> data_timed (Some updates) ->
  exists trips',
    handleUpdateActivity localeCompare sel dayId activityId updates trips
    = Normal trips'
    /\ sorted trips'.
Proof.
  intros Hsorted Hdata.
  destruct (handleUpdateActivity_returns localeCompare sel dayId activityId
              updates trips Hsorted Hdata) as [trips' Hupdate].
  exists trips'. split; [done|].
  rewrite handleUpdateActivity_shape in Hupdate.
  apply try_map_target_days_inv in Hupdate as [-> Hreturns].
  apply map_target_days_sorted; [done|].
  intros trip day Htrip Hsel Hday Hid.
  destruct (sorted_after_sort
              (List.map (fun a => if same_id (Activity.id a) activityId
                                  then spread a updates else a)
                 (ItineraryDay.activities day)))
    as (acts & Hacts & Htimed & Horder).
  - destruct (day_sorted_Sorted localeCompare trips trip day) as [Htimed _];
      try done.
    apply Forall_map_preserved; [|done]. intros a Ha.
    destruct (same_id _ _); [by apply spread_timed|done].
  - unfold or_keep. by rewrite Hacts.
Qed.

Lemma Sorted_filter {A} (R : A -> A -> Prop) (f : A -> bool) (l : list A) :
  (forall a b c, R a b -> R b c -> R a c) ->
  Sorted R l -> Sorted R (List.filter f l).
Proof.
  intros Htrans Hl.
  apply StronglySorted_Sorted.
  apply Sorted_StronglySorted in Hl; [|exact Htrans].
  induction Hl as [|x l Hl IH Hx]; simpl; [constructor|].
  destruct (f x); [|done].
  constructor; [done|].
  apply Forall_forall. intros y Hy.
  apply list_elem_of_In, filter_In in Hy as [Hy _].
  rewrite Forall_forall in Hx. apply Hx. by apply list_elem_of_In.
Qed.

Lemma handleDeleteActivity_sorted sel dayId activityId trips :
  sorted trips -> sorted (handleDeleteActivity sel dayId activityId trips).
Proof.
  intros Hsorted. rewrite handleDeleteActivity_shape.
  apply map_target_days_sorted; [done|].
  intros trip day Htrip Hsel Hday Hid.
  destruct (day_sorted_Sorted localeCompare trips trip day)
    as [Htimed Horder]; try done.
  split.
  - apply Forall_forall. intros a Ha.
    apply list_elem_of_In, filter_In in Ha as [Ha _].
    rewrite Forall_forall in Htimed. by apply Htimed, list_elem_of_In.
  - apply Sorted_filter; [|done]. intros a b c. apply time_le_trans.
Qed.

Lemma run_action_sorted step trips :
  sorted trips -> action_timed step.2 ->
  exists trips',
    run_action localeCompare step trips = Normal trips' /\ sorted trips'.
Proof.
  destruct step as [sel [freshId dayId data|dayId activityId updates|dayId activityId]];
    cbn [run_action snd action_timed]; intros Hsorted Hdata.
  - by apply handleAddActivity_sorted.
  - by apply handleUpdateActivity_sorted.
  - eexists. split; [done|]. by apply handleDeleteActivity_sorted.
Qed.

(** X30. On trips whose days all list their activities in time order, each
    of [handleAddActivity], [handleUpdateActivity] and
    [handleDeleteActivity], with any day id and activity id, and with
    fields whose time key, when present, holds a string, returns trips
    whose days are again in time order, and so does every sequence of such
    calls.  The order is that of a comparator that is a total preorder. *)
Theorem sort_invariant_preserved :
  (forall step trips,
      sorted trips -> action_timed step.2 ->
      exists trips',
        run_action localeCompare step trips = Normal trips' /\ sorted trips')
  /\ (forall steps trips,
      sorted trips -> Forall (fun step => action_timed step.2) steps ->
      exists trips',
        run_actions localeCompare steps trips = Normal trips' /\ sorted trips').
Proof.
  split; [apply run_action_sorted|].
  induction steps as [|step steps IH]; intros trips Htrips Hsteps;
    cbn [run_actions].
  - by eexists.
  - apply Forall_cons in Hsteps as [Hstep Hsteps].
    destruct (run_action_sorted step trips Htrips Hstep) as (trips' & -> & Htrips').
    cbn [bind]. by apply IH.
Qed.
End ReducerFacts.

Lemma sort_invariant_preserved_witness :
  exists trips,
    run_actions compareCodeUnits example_steps [example_trip] = Normal trips
    /\ Forall (trip_sorted compareCodeUnits) trips.
Proof.
  apply (proj2 (sort_invariant_preserved compareCodeUnits
                  compareCodeUnits_total compareCodeUnits_trans)).
  - apply example_trip_sorted.
  - repeat constructor; discriminate.
Defined.

(** ** What the handlers change *)

Lemma add_inv localeCompare sel freshId dayId data trips trips' :
  handleAddActivity localeCompare sel freshId dayId data trips = Normal trips' ->
  trips'
  = map_target_days sel dayId
      (or_keep (fun acts => Array_sort (byTime localeCompare)
                              (acts ++ [newActivity freshId data]))) trips
  /\ (forall trip day,
        trip ∈ trips -> is_selected sel trip = true ->
        day ∈ Trip.days trip -> ItineraryDay.id day = dayId ->
        exists sorted,
          Array_sort (byTime localeCompare)
            (ItineraryDay.activities day ++ [newActivity freshId data])
          = Normal sorted).
Proof. rewrite handleAddActivity_shape. apply try_map_target_days_inv. Qed.

Lemma update_inv localeCompare sel dayId activityId updates trips trips' :
  handleUpdateActivity localeCompare sel dayId activityId updates trips
  = Normal trips' ->
  trips'
  = map_target_days sel dayId
      (or_keep (fun acts => Array_sort (byTime localeCompare)
         (List.map (fun a => if same_id (Activity.id a) activityId
                             then spread a updates else a) acts))) trips
  /\ (forall trip day,
        trip ∈ trips -> is_selected sel trip = true ->
        day ∈ Trip.days trip -> ItineraryDay.id day = dayId ->
        exists sorted,
          Array_sort (byTime localeCompare)
            (List.map (fun a => if same_id (Activity.id a) activityId
                                then spread a updates else a)
               (ItineraryDay.activities day))
          = Normal sorted).
Proof. rewrite handleUpdateActivity_shape. apply try_map_target_days_inv. Qed.

(** X1. When [handleAddActivity] returns, it has changed nothing but the
    activity lists of the days with the given id in the trips with the
    selected id, and each of those has become a rearrangement of the old
    list with the new activity.  It returns on trips in time order when the
    time key of the data, if present, holds a string. *)
Theorem handleAddActivity_adds_one localeCompare sel freshId dayId data trips :
  (forall trips',
      handleAddActivity localeCompare sel freshId dayId data trips
      = Normal trips' ->
      itinerary_related sel dayId
        (fun old new => new ≡ₚ old ++ [newActivity freshId data])
        trips trips')
  /\ (Forall (trip_sorted localeCompare) trips -> data_timed data ->
      exists trips',
        handleAddActivity localeCompare sel freshId dayId data trips
        = Normal trips').
Proof.
  split; [|apply handleAddActivity_returns].
  intros trips' [-> Hreturns]%add_inv.
  apply map_target_days_related. intros trip day Htrip Hsel Hday Hid.
  destruct (Hreturns trip day) as [acts Hacts]; try done.
  unfold or_keep. rewrite Hacts.
  by apply (Array_sort_Permutation (byTime localeCompare)).
Qed.

(** X2. When [handleUpdateActivity] returns, it has neither added nor
    removed an activity, and when the updates carry no id the ids of each
    day are the same as before.  It returns on trips in time order when the
    time key of the updates, if present, holds a string. *)
Theorem handleUpdateActivity_keeps_activities
    localeCompare sel dayId activityId updates trips :
  (forall trips',
      handleUpdateActivity localeCompare sel dayId activityId updates trips
      = Normal trips' ->
      itinerary_related sel dayId
        (fun old new =>
           length new = length old
           /\ (PartialActivity.id updates = None ->
               List.map Activity.id new ≡ₚ List.map Activity.id old))
        trips trips')
  /\ (Forall (trip_sorted localeCompare) trips -> data_timed (Some updates) ->
      exists trips',
        handleUpdateActivity localeCompare sel dayId activityId updates trips
        = Normal trips').
Proof.
  split; [|apply handleUpdateActivity_returns].
  intros trips' [-> Hreturns]%update_inv.
  apply map_target_days_related. intros trip day Htrip Hsel Hday Hid.
  destruct (Hreturns trip day) as [acts Hacts]; try done.
  unfold or_keep. rewrite Hacts.
  apply (Array_sort_Permutation (byTime localeCompare)) in Hacts.
  split.
  - by rewrite Hacts, length_map.
  - intros Hno_id. rewrite Hacts, List.map_map.
    erewrite List.map_ext; [done|].
    intros a. simpl. destruct (same_id _ _); [|done].
    simpl. by rewrite Hno_id.
Qed.

(** X3. Deleting an activity id that no targeted day holds changes
    nothing. *)
Theorem handleDeleteActivity_absent sel dayId activityId trips :
  (forall trip day act,
      trip ∈ trips -> is_selected sel trip = true ->
      day ∈ Trip.days trip -> ItineraryDay.id day = dayId ->
      act ∈ ItineraryDay.activities day -> Activity.id act <> activityId) ->
  handleDeleteActivity sel dayId activityId trips = trips.
Proof.
  intros Habsent. rewrite handleDeleteActivity_shape.
  apply map_target_days_fixed. intros trip day Htrip Hsel Hday Hid.
  apply filter_all. intros act Hact.
  apply negb_true_iff, same_id_ne. by eapply Habsent.
Qed.

(** X4. On trips in time order, adding an activity whose id no targeted day
    holds yet and then deleting that id gives back the trips, whenever the
    add returns; it returns when the time key of the data, if present,
    holds a string. *)
Theorem add_then_delete localeCompare sel freshId dayId data trips :
  Forall (trip_sorted localeCompare) trips ->
  (forall trip day act,
      trip ∈ trips -> is_selected sel trip = true ->
      day ∈ Trip.days trip -> ItineraryDay.id day = dayId ->
      act ∈ ItineraryDay.activities day ->
      Activity.id act <> Activity.id (newActivity freshId data)) ->
  (forall trips',
      handleAddActivity localeCompare sel freshId dayId data trips
      = Normal trips' ->
      handleDeleteActivity sel dayId (Activity.id (newActivity freshId data))
        trips'
      = trips)
  /\ (data_timed data ->
      exists trips',
        handleAddActivity localeCompare sel freshId dayId data trips
        = Normal trips').
Proof.
  intros Hsorted Hfresh.
  split; [|by apply handleAddActivity_returns].
  intros trips' [-> Hreturns]%add_inv.
  rewrite handleDeleteActivity_shape, map_target_days_compose.
  apply map_target_days_fixed. intros trip day Htrip Hsel Hday Hid.
  destruct (Hreturns trip day) as [acts Hacts]; try done.
  unfold or_keep. rewrite Hacts.
  apply (Array_sort_append (byTime localeCompare) _ _
           (newActivity freshId data)); try done.
  - by apply (day_sorted_Sorted localeCompare trips trip day).
  - apply negb_false_iff, same_id_eq. done.
  - intros act Hact. apply negb_true_iff, same_id_ne. by eapply Hfresh.
Qed.

(** ** Costs under the handlers *)

Lemma calculateTotalCost_cost_sum (trip : Trip.t) :
  calculateTotalCost (Some trip) = cost_sum (all_activities trip).
Proof.
  unfold calculateTotalCost, all_activities.
  rewrite or_zero_id, trip_total_sum. lia.
Qed.

Lemma cost_sum_Permutation (l l' : list Activity.t) :
  l ≡ₚ l' -> cost_sum l = cost_sum l'.
Proof.
  induction 1 as [|a l l' _ IH|a b l|l l' l'' _ IH1 _ IH2]; simpl.
  - done.
  - fold (cost_sum l) (cost_sum l'). lia.
  - fold (cost_sum l). lia.
  - lia.
Qed.

(** When [f] changes the cost of the activity list of a targeted day by
    [delta], the total of a trip changes by the sum of [delta] over its
    targeted days. *)
Lemma map_target_days_cost sel dayId f (delta : list Activity.t -> Z) trips :
  (forall trip day,
      trip ∈ trips -> is_selected sel trip = true ->
      day ∈ Trip.days trip -> ItineraryDay.id day = dayId ->
      cost_sum (f (ItineraryDay.activities day))
      = cost_sum (ItineraryDay.activities day)
        + delta (ItineraryDay.activities day)) ->
  List.map (fun trip => calculateTotalCost (Some trip))
    (map_target_days sel dayId f trips)
  = List.map (fun trip =>
      calculateTotalCost (Some trip)
      + foldr (fun day acc => delta (ItineraryDay.activities day) + acc) 0
          (target_days sel dayId trip)) trips.
Proof.
  intros Hf. unfold map_target_days. rewrite List.map_map.
  apply map_ext_in. intros trip Htrip%list_elem_of_In.
  rewrite !calculateTotalCost_cost_sum. unfold target_days.
  destruct (is_selected sel trip) eqn:Hsel; simpl; [|lia].
  unfold all_activities. simpl.
  assert (Hdays : forall day, day ∈ Trip.days trip -> day ∈ Trip.days trip)
    by done.
  revert Hdays. generalize (Trip.days trip) at 1 3 4 5. intros ds Hds.
  induction ds as [|day ds IH]; simpl; [lia|].
  rewrite !cost_sum_app, IH by (intros d Hd; apply Hds; by constructor).
  destruct (String.eqb (ItineraryDay.id day) dayId) eqn:Hid; simpl; [|lia].
  apply String.eqb_eq in Hid.
  rewrite (Hf trip day) by (try done; apply Hds; constructor). lia.
Qed.

Lemma foldr_const_sum {A} (d : Z) (l : list A) :
  foldr (fun _ acc => d + acc) 0 l = Z.of_nat (length l) * d.
Proof. induction l as [|x l IH]; simpl; [lia|]. rewrite IH. lia. Qed.

(** X6. When [handleAddActivity] returns, it has raised the total cost of a
    trip by the cost of the new activity for each targeted day, and left
    the totals of the other trips as they were.  It returns on trips in
    time order when the time key of the data, if present, holds a
    string. *)
Theorem handleAddActivity_cost localeCompare sel freshId dayId data trips :
  (forall trips',
      handleAddActivity localeCompare sel freshId dayId data trips
      = Normal trips' ->
      List.map (fun trip => calculateTotalCost (Some trip)) trips'
      = List.map (fun trip =>
          calculateTotalCost (Some trip)
          + Z.of_nat (length (target_days sel dayId trip))
            * default 0 (Activity.cost (newActivity freshId data))) trips)
  /\ (Forall (trip_sorted localeCompare) trips -> data_timed data ->
      exists trips',
        handleAddActivity localeCompare sel freshId dayId data trips
        = Normal trips').
Proof.
  split; [|apply handleAddActivity_returns].
  intros trips' [-> Hreturns]%add_inv.
  rewrite (map_target_days_cost _ _ _
             (fun _ => default 0 (Activity.cost (newActivity freshId data)))).
  - apply List.map_ext. intros trip. by rewrite foldr_const_sum.
  - intros trip day Htrip Hsel Hday Hid.
    destruct (Hreturns trip day) as [acts Hacts]; try done.
    unfold or_keep. rewrite Hacts.
    apply (Array_sort_Permutation (byTime localeCompare)) in Hacts.
    rewrite (cost_sum_Permutation _ _ Hacts), cost_sum_app. simpl. lia.
Qed.

Lemma cost_sum_filter (f : Activity.t -> bool) (acts : list Activity.t) :
  cost_sum (List.filter (fun a => negb (f a)) acts)
  = cost_sum acts - cost_sum (List.filter f acts).
Proof.
  induction acts as [|a acts IH]; simpl; [done|].
  fold (cost_sum acts). destruct (f a); simpl; rewrite IH.
  - fold (cost_sum (List.filter f acts)). lia.
  - fold (cost_sum (List.filter (fun a => negb (f a)) acts)). lia.
Qed.

(** X7. Deleting lowers the total cost of a trip by the costs of the
    activities it removes. *)
Theorem handleDeleteActivity_cost sel dayId activityId trips :
  List.map (fun trip => calculateTotalCost (Some trip))
    (handleDeleteActivity sel dayId activityId trips)
  = List.map (fun trip =>
      calculateTotalCost (Some trip)
      - cost_sum (removed_activities sel dayId activityId trip)) trips.
Proof.
  rewrite handleDeleteActivity_shape.
  rewrite (map_target_days_cost _ _ _
             (fun acts =>
                - cost_sum (List.filter
                              (fun a => same_id (Activity.id a) activityId)
                              acts))).
  - apply List.map_ext. intros trip. unfold removed_activities.
    induction (target_days sel dayId trip) as [|day ds IH]; simpl; [lia|].
    rewrite cost_sum_app. lia.
  - intros trip day _ _ _ _.
    rewrite (cost_sum_filter (fun a => same_id (Activity.id a) activityId)).
    lia.
Qed.

(** ** The selection *)

Lemma find_none_all {A} (f : A -> bool) (l : list A) :
  (forall x, x ∈ l -> f x = false) -> List.find f l = None.
Proof.
  induction l as [|x l IH]; intros Hf; simpl; [done|].
  rewrite Hf by constructor. apply IH. intros y Hy. apply Hf. by constructor.
Qed.

(** X8. When no trip has the selected id, the three handlers change
    nothing, although [selectedTrip], which the page shows, then falls back
    to the first trip. *)
Theorem handlers_without_selection
    localeCompare sel freshId dayId activityId data updates trips :
  (forall trip, trip ∈ trips -> is_selected sel trip = false) ->
  handleAddActivity localeCompare sel freshId dayId data trips = Normal trips
  /\ handleUpdateActivity localeCompare sel dayId activityId updates trips
     = Normal trips
  /\ handleDeleteActivity sel dayId activityId trips = trips
  /\ selectedTrip trips sel = head trips.
Proof.
  intros Hnone.
  rewrite handleAddActivity_shape, handleUpdateActivity_shape,
    handleDeleteActivity_shape.
  assert (Hfixed : forall f, map_target_days sel dayId f trips = trips).
  { intros f. apply map_target_days_fixed. intros trip day Htrip Hsel.
    rewrite Hnone in Hsel by done. discriminate. }
  assert (Htry : forall f, try_map_target_days sel dayId f trips = Normal trips).
  { intros f. rewrite try_map_target_days_returns; [by rewrite Hfixed|].
    intros trip day Htrip Hsel. rewrite Hnone in Hsel by done. discriminate. }
  split; [apply Htry|]. split; [apply Htry|]. split; [apply Hfixed|].
  unfold selectedTrip. by rewrite find_none_all.
Qed.

(** ** Saving an edited activity *)

Lemma spread_Activity_as_updates (keys : OptionalKeys) (a : Activity.t) :
  spread a (Activity_as_updates keys a) = a.
Proof.
  destruct a as [id time title location lat lng notes cost type].
  unfold spread, Activity_as_updates, own_key. cbn. f_equal.
  - by destruct id, (has_id keys).
  - by destruct time, (has_time keys).
  - by destruct title, (has_title keys).
  - by destruct location, (has_location keys).
  - by destruct lat, (has_lat keys).
  - by destruct lng, (has_lng keys).
  - by destruct notes, (has_notes keys).
  - by destruct cost, (has_cost keys).
  - by destruct type, (has_type keys).
Qed.

(** X9. On trips in time order, saving an activity as it is stored changes
    nothing, whichever of its undefined keys are present. *)
Theorem handleSaveActivityUI_unchanged
    localeCompare sel keys dayId activity trips :
  Forall (trip_sorted localeCompare) trips ->
  (forall trip day act,
      trip ∈ trips -> is_selected sel trip = true ->
      day ∈ Trip.days trip -> ItineraryDay.id day = dayId ->
      act ∈ ItineraryDay.activities day ->
      Activity.id act = Activity.id activity -> act = activity) ->
  handleSaveActivityUI localeCompare sel keys dayId activity trips
  = Normal trips.
Proof.
  intros Hsorted Hstored. unfold handleSaveActivityUI.
  rewrite handleUpdateActivity_shape.
  assert (Hfixed : forall trip day,
            trip ∈ trips -> is_selected sel trip = true ->
            day ∈ Trip.days trip -> ItineraryDay.id day = dayId ->
            Array_sort (byTime localeCompare)
              (List.map (fun a =>
                           if same_id (Activity.id a) (Activity.id activity)
                           then spread a (Activity_as_updates keys activity)
                           else a)
                 (ItineraryDay.activities day))
            = Normal (ItineraryDay.activities day)).
  { intros trip day Htrip Hsel Hday Hid. rewrite map_fixed.
    - apply Array_sort_of_sorted.
      by apply (day_sorted_Sorted localeCompare trips trip day).
    - intros act Hact.
      destruct (same_id (Activity.id act) _) eqn:Heq; [|done].
      apply same_id_eq in Heq.
      rewrite (Hstored trip day act) by done.
      apply spread_Activity_as_updates. }
  rewrite try_map_target_days_returns.
  - f_equal. apply map_target_days_fixed.
    intros trip day Htrip Hsel Hday Hid.
    unfold or_keep. by rewrite (Hfixed trip day).
  - intros trip day Htrip Hsel Hday Hid. eexists. by apply (Hfixed trip).
Qed.

(** ** Adding and then updating *)

Lemma map_target_days_image sel dayId f trips trip day :
  trip ∈ trips -> is_selected sel trip = true ->
  day ∈ Trip.days trip -> ItineraryDay.id day = dayId ->
  exists trip' day',
    trip' ∈ map_target_days sel dayId f trips
    /\ is_selected sel trip' = true
    /\ day' ∈ Trip.days trip' /\ ItineraryDay.id day' = dayId
    /\ ItineraryDay.activities day' = f (ItineraryDay.activities day).
Proof.
  intros Htrip Hsel Hday Hid.
  exists (with_days trip
            (List.map (fun day =>
               if String.eqb (ItineraryDay.id day) dayId
               then with_activities day (f (ItineraryDay.activities day))
               else day) (Trip.days trip))),
    (with_activities day (f (ItineraryDay.activities day))).
  split; [|split; [|split; [|done]]].
  - unfold map_target_days. apply list_elem_of_In, in_map_iff.
    exists trip. rewrite Hsel. split; [done|by apply list_elem_of_In].
  - by rewrite is_selected_with_days.
  - cbn [with_days Trip.days]. apply list_elem_of_In, in_map_iff.
    exists day. apply String.eqb_eq in Hid. rewrite Hid.
    split; [done|by apply list_elem_of_In].
Qed.

Section ReducerCompose.
Variable localeCompare : string -> string -> Z.
Hypothesis localeCompare_total :
  forall a b, 0 <= localeCompare a b \/ 0 <= localeCompare b a.

(** X5. Adding an activity whose id no targeted day holds yet and then
    updating that id leaves, when both calls return, one more activity than
    before, the new one with the updates applied; nothing else changes.
    Both calls return on trips in time order when the time keys of the data
    and of the updates, if present, hold strings. *)
Theorem add_then_update sel freshId dayId data updates trips :
  (forall trip day act,
      trip ∈ trips -> is_selected sel trip = true ->
      day ∈ Trip.days trip -> ItineraryDay.id day = dayId ->
      act ∈ ItineraryDay.activities day ->
      Activity.id act <> Activity.id (newActivity freshId data)) ->
  (forall trips' trips'',
      handleAddActivity localeCompare sel freshId dayId data trips
      = Normal trips' ->
      handleUpdateActivity localeCompare sel dayId
        (Activity.id (newActivity freshId data)) updates trips'
      = Normal trips'' ->
      itinerary_related sel dayId
        (fun old new =>
           new ≡ₚ old ++ [spread (newActivity freshId data) updates])
        trips trips'')
  /\ (Forall (trip_sorted localeCompare) trips ->
      data_timed data -> data_timed (Some updates) ->
      exists trips' trips'',
        handleAddActivity localeCompare sel freshId dayId data trips
        = Normal trips'
        /\ handleUpdateActivity localeCompare sel dayId
             (Activity.id (newActivity freshId data)) updates trips'
           = Normal trips'').
Proof.
  intros Hfresh. split.
  - intros trips' trips'' [-> Hadd]%add_inv [-> Hupdate]%update_inv.
    rewrite map_target_days_compose.
    apply map_target_days_related. intros trip day Htrip Hsel Hday Hid.
    destruct (Hadd trip day) as [added Hadded]; try done.
    destruct (map_target_days_image sel dayId
                (or_keep (fun acts =>
                   Array_sort (byTime localeCompare)
                     (acts ++ [newActivity freshId data])))
                trips trip day) as (trip' & day' & Htrip' & Hsel' & Hday' & Hid' & Hacts');
      try done.
    destruct (Hupdate trip' day') as [updated Hupdated]; try done.
    rewrite Hacts' in Hupdated. cbn beta.
    assert (Hkept :
      or_keep (fun acts => Array_sort (byTime localeCompare)
                 (acts ++ [newActivity freshId data]))
        (ItineraryDay.activities day) = added)
      by (unfold or_keep; by rewrite Hadded).
    rewrite Hkept in Hupdated |- *.
    unfold or_keep. rewrite Hupdated.
    apply (Array_sort_Permutation (byTime localeCompare)) in Hadded, Hupdated.
    rewrite Hupdated, (Permutation_map _ Hadded), List.map_app.
    cbn [List.map].
    replace (same_id (Activity.id (newActivity freshId data))
               (Activity.id (newActivity freshId data))) with true
      by (symmetry; by apply same_id_eq).
    rewrite map_fixed; [done|].
    intros act Hact.
    destruct (same_id (Activity.id act) _) eqn:Heq; [|done].
    apply same_id_eq in Heq. by destruct (Hfresh trip day act).
  - intros Hsorted Hdata Hupdates.
    destruct (handleAddActivity_sorted localeCompare localeCompare_total
                sel freshId dayId data trips Hsorted Hdata)
      as (trips' & Hadd & Hsorted').
    destruct (handleUpdateActivity_returns localeCompare sel dayId
                (Activity.id (newActivity freshId data)) updates trips'
                Hsorted' Hupdates) as [trips'' Hupdate].
    by exists trips', trips''.
Qed.
End ReducerCompose.

(** ** Creating a trip *)

Lemma generateDays_loop_Forall (P : ItineraryDay.t -> Prop) tz fuel current
    endLimit days result :
  (forall day, ItineraryDay.activities day = [] -> P day) ->
  generateDays_loop tz fuel current endLimit days = Some result ->
  Forall P days -> Forall P result.
Proof.
  intros HP. revert current days.
  induction fuel as [|fuel IH]; intros current days Hloop Hdays; [done|].
  simpl in Hloop.
  destruct current as [c|], endLimit as [e|]; try by injection Hloop as <-.
  destruct (c <=? e); [|by injection Hloop as <-].
  eapply IH; [exact Hloop|].
  apply Forall_app. split; [done|]. constructor; [|done]. by apply HP.
Qed.

Lemma generateDays_result_empty_days tz start end_ :
  Forall (fun day => ItineraryDay.activities day = [])
    (generateDays_result tz start end_).
Proof.
  unfold generateDays_result.
  destruct (generateDays tz _ start end_) as [days|] eqn:Hdays; [|done].
  unfold generateDays in Hdays.
  eapply generateDays_loop_Forall; [|exact Hdays|]; done.
Qed.

Lemma concat_empty_days (ds : list ItineraryDay.t) :
  Forall (fun day => ItineraryDay.activities day = []) ds ->
  concat (List.map ItineraryDay.activities ds) = [].
Proof. induction 1 as [|day ds Hday _ IH]; simpl; [done|]. by rewrite Hday, IH. Qed.

(** X10. The trip [handleCreateTrip] makes is put in front of the others and
    becomes the selected trip; it has the days of [generateDays], no
    activity, and a total cost of 0. *)
Theorem handleCreateTrip_selected tz now_id now_cover data st :
  let st' := handleCreateTrip tz now_id now_cover data st in
  exists newTrip,
    App.trips st' = newTrip :: App.trips st
    /\ selectedTrip (App.trips st') (App.selectedTripId st') = Some newTrip
    /\ Trip.days newTrip
       = generateDays_result tz (NewTripData.startDate data)
           (NewTripData.endDate data)
    /\ all_activities newTrip = []
    /\ calculateTotalCost (Some newTrip) = 0.
Proof.
  eexists. split; [reflexivity|].
  split; [|split; [reflexivity|]].
  - unfold selectedTrip. cbn [handleCreateTrip App.trips App.selectedTripId].
    cbn [List.find is_selected Trip.id]. by rewrite String.eqb_refl.
  - assert (Hnone : forall trip,
              Trip.days trip
              = generateDays_result tz (NewTripData.startDate data)
                  (NewTripData.endDate data) ->
              all_activities trip = []).
    { intros trip Hdays. unfold all_activities. rewrite Hdays.
      apply concat_empty_days, generateDays_result_empty_days. }
    split; [by apply Hnone|].
    rewrite calculateTotalCost_cost_sum, Hnone; done.
Qed.

(** ** The states the application reaches *)

Lemma map_target_days_ids sel dayId f trips :
  List.map Trip.id (map_target_days sel dayId f trips) = List.map Trip.id trips.
Proof.
  unfold map_target_days. rewrite List.map_map. apply List.map_ext.
  intros trip. by destruct (is_selected sel trip).
Qed.

Lemma run_action_ids localeCompare step trips trips' :
  run_action localeCompare step trips = Normal trips' ->
  List.map Trip.id trips' = List.map Trip.id trips.
Proof.
  destruct step as [sel [freshId dayId data|dayId activityId updates|dayId activityId]];
    cbn [run_action].
  - intros [-> _]%add_inv. apply map_target_days_ids.
  - intros [-> _]%update_inv. apply map_target_days_ids.
  - intros [= <-]. rewrite handleDeleteActivity_shape. apply map_target_days_ids.
Qed.

Lemma has_id_map (id : string) (trips trips' : list Trip.t) :
  List.map Trip.id trips' = List.map Trip.id trips ->
  (exists trip, trip ∈ trips /\ Trip.id trip = id) ->
  exists trip, trip ∈ trips' /\ Trip.id trip = id.
Proof.
  intros Hids (trip & Htrip & Hid).
  assert (Hin : id ∈ List.map Trip.id trips').
  { rewrite Hids, <- Hid. apply list_elem_of_In, in_map.
    by apply list_elem_of_In. }
  apply list_elem_of_In, in_map_iff in Hin as (trip' & Hid' & Hin).
  exists trip'. split; [by apply list_elem_of_In|done].
Qed.

Section AppFacts.
Variable localeCompare : string -> string -> Z.
Hypothesis localeCompare_total :
  forall a b, 0 <= localeCompare a b \/ 0 <= localeCompare b a.
Hypothesis localeCompare_trans :
  forall a b c,
    0 <= localeCompare b a -> 0 <= localeCompare c b -> 0 <= localeCompare c a.
Variable tz : Z.

Lemma app_step_invariant (a : app_action) (st : App.state) :
  app_action_timed a ->
  app_invariant localeCompare st ->
  exists st',
    app_step localeCompare tz a st = Normal st'
    /\ app_invariant localeCompare st'.
Proof.
  intros Htimed [Hsorted Hsel].
  destruct a as [now_id now_cover data|index|captured a];
    cbn [app_step app_action_timed] in *.
  - eexists. split; [done|]. unfold app_invariant. split.
    + cbn [handleCreateTrip App.trips].
      constructor; [|done]. unfold trip_sorted. cbn [Trip.days].
      eapply Forall_impl; [apply generateDays_result_empty_days|].
      intros day Hday. unfold day_sorted. rewrite Hday. by split; constructor.
    + cbn [handleCreateTrip App.trips App.selectedTripId].
      eexists. split; [apply list_elem_of_here|reflexivity].
  - destruct (App.trips st !! index) as [trip|] eqn:Hindex;
      (eexists; split; [done|]); [|by split].
    split; [done|]. cbn [App.trips App.selectedTripId].
    exists trip. split; [|done].
    by eapply list_elem_of_lookup_2.
  - destruct (run_action_sorted localeCompare localeCompare_total
                localeCompare_trans (captured, a) (App.trips st) Hsorted Htimed)
      as (trips' & Hrun & Hsorted').
    rewrite Hrun. cbn [bind]. eexists. split; [done|].
    split; [done|]. cbn [App.trips App.selectedTripId].
    apply run_action_ids in Hrun.
    destruct (App.selectedTripId st) as [id|].
    + by eapply has_id_map.
    + rewrite Hsel in Hrun. by destruct trips'.
Qed.

(** X11. Every sequence of events that starts from the empty trip list and
    creates trips, selects trips of the list, and adds, updates and deletes
    activities with data whose time key, when present, holds a string, runs
    to its end; the state it reaches keeps every day in time order and has
    a selection that names one of its trips as soon as there is a trip, and
    the page then shows the trip with that id. *)
Theorem app_run_invariant (steps : list app_action) :
  Forall app_action_timed steps ->
  exists st,
    app_run localeCompare tz steps App.initial = Normal st
    /\ app_invariant localeCompare st
    /\ (App.trips st <> [] ->
        exists trip,
          selectedTrip (App.trips st) (App.selectedTripId st) = Some trip
          /\ App.selectedTripId st = Some (Trip.id trip)).
Proof.
  intros Hsteps.
  assert (Hinv : forall st,
            app_invariant localeCompare st ->
            exists st',
              app_run localeCompare tz steps st = Normal st'
              /\ app_invariant localeCompare st').
  { induction Hsteps as [|a steps Ha Hsteps IH]; intros st Hst;
      cbn [app_run]; [by eexists|].
    destruct (app_step_invariant a st Ha Hst) as (st' & -> & Hst').
    cbn [bind]. by apply IH. }
  destruct (Hinv App.initial) as (st & Hrun & Hsorted & Hsel); [by split|].
  exists st. split; [done|]. split; [by split|]. intros Hne.
  destruct (App.selectedTripId st) as [id|]; [|done].
  destruct Hsel as (trip & Htrip & Hid).
  unfold selectedTrip.
  destruct (List.find (is_selected (Some id)) _) as [found|] eqn:Hfind.
  - apply find_some in Hfind as [_ Hfound]. simpl in Hfound.
    apply String.eqb_eq in Hfound. exists found. by rewrite Hfound.
  - apply list_elem_of_In in Htrip.
    eapply find_none in Hfind; [|exact Htrip]. simpl in Hfind.
    rewrite Hid, String.eqb_refl in Hfind. discriminate.
Qed.
End AppFacts.

(** ** More on [generateDays] *)

(** X12. The loop of [generateDays] ends in every zone, for date-only texts
    and for texts that are no date alike: [generateDays_fuel] iterations
    suffice, and more iterations give the same list. *)
Theorem generateDays_terminates tz fuel start end_ :
  (generateDays_fuel tz start end_ <= fuel)%nat ->
  generateDays tz fuel start end_ = Some (generateDays_result tz start end_).
Proof.
  unfold generateDays_result, generateDays_fuel. intros Hfuel.
  destruct (Date_parse start) as [ts|] eqn:Hstart;
    [destruct (Date_parse end_) as [te|] eqn:Hend|].
  - rewrite !(generateDays_closed tz _ start end_ ts te)
      by (assumption || lia).
    cbn [from_option id]. reflexivity.
  - destruct fuel as [|fuel]; [lia|].
    rewrite !generateDays_invalid by auto. cbn [from_option id]. reflexivity.
  - destruct fuel as [|fuel]; [lia|].
    rewrite !generateDays_invalid by auto. cbn [from_option id]. reflexivity.
Qed.

Lemma generateDays_terminates_witness :
  generateDays (-10800000) 7 "2024-01-10" "2024-01-12"
  = Some (generateDays_result (-10800000) "2024-01-10" "2024-01-12").
Proof.
  apply generateDays_terminates. vm_compute. lia.
Defined.

Lemma generateDays_entries_witness :
  exists days,
    generateDays 3600000 4 "2024-02-28" "2024-03-01" = Some days
    /\ Z.of_nat (length days) = 3
    /\ NoDup (List.map ItineraryDay.id days)
    /\ List.map ItineraryDay.date days
       = List.map iso_date_of_days (seqZ 19781 3).
Proof.
  apply (generateDays_entries 3600000 4 "2024-02-28" "2024-03-01"
           1709078400000 1709251200000).
  - reflexivity.
  - reflexivity.
  - vm_compute. intros [_ Hle]. by apply Hle.
  - vm_compute. intros [_ Hle]. by apply Hle.
  - vm_compute. discriminate.
  - vm_compute. lia.
Defined.

(** Digits and their characters. *)
Lemma digit_of_ascii_inv (c : ascii) (a : Z) :
  digit_of_ascii c = Some a -> 0 <= a <= 9 /\ c = digit_char a.
Proof.
  unfold digit_of_ascii, digit_char.
  destruct (Z.leb_spec 48 (Z.of_N (N_of_ascii c))); simpl; [|done].
  destruct (Z.leb_spec (Z.of_N (N_of_ascii c)) 57); simpl; [|done].
  intros [= <-]. split; [lia|].
  replace (Z.of_N (N_of_ascii c) - 48 + 48) with (Z.of_N (N_of_ascii c)) by lia.
  by rewrite N2Z.id, ascii_N_embedding.
Qed.

Lemma in_digits (a : Z) : 0 <= a <= 9 -> In a [0; 1; 2; 3; 4; 5; 6; 7; 8; 9].
Proof. simpl. lia. Qed.

Lemma pad_two_table :
  forallb (fun f => forallb (fun g =>
    String.eqb (pad 2 (10 * f + g))
      (String (digit_char f) (String (digit_char g) EmptyString)))
    [0; 1; 2; 3; 4; 5; 6; 7; 8; 9]) [0; 1; 2; 3; 4; 5; 6; 7; 8; 9] = true.
Proof. vm_compute. reflexivity. Qed.

Lemma pad_two_digits (f g : Z) :
  0 <= f <= 9 -> 0 <= g <= 9 ->
  pad 2 (10 * f + g) = String (digit_char f) (String (digit_char g) EmptyString).
Proof.
  intros Hf%in_digits Hg%in_digits.
  pose proof pad_two_table as Hall.
  rewrite forallb_forall in Hall. specialize (Hall f Hf).
  rewrite forallb_forall in Hall. specialize (Hall g Hg).
  by apply String.eqb_eq.
Qed.

Lemma pad_four_table :
  forallb (fun a => forallb (fun b => forallb (fun c => forallb (fun e =>
    String.eqb (pad 4 (1000 * a + 100 * b + 10 * c + e))
      (String (digit_char a) (String (digit_char b)
         (String (digit_char c) (String (digit_char e) EmptyString)))))
    [0; 1; 2; 3; 4; 5; 6; 7; 8; 9]) [0; 1; 2; 3; 4; 5; 6; 7; 8; 9])
    [0; 1; 2; 3; 4; 5; 6; 7; 8; 9]) [0; 1; 2; 3; 4; 5; 6; 7; 8; 9] = true.
Proof. vm_compute. reflexivity. Qed.

Lemma pad_four_digits (a b c e : Z) :
  0 <= a <= 9 -> 0 <= b <= 9 -> 0 <= c <= 9 -> 0 <= e <= 9 ->
  pad 4 (1000 * a + 100 * b + 10 * c + e)
  = String (digit_char a) (String (digit_char b)
      (String (digit_char c) (String (digit_char e) EmptyString))).
Proof.
  intros Ha%in_digits Hb%in_digits Hc%in_digits He%in_digits.
  pose proof pad_four_table as Hall.
  rewrite forallb_forall in Hall. specialize (Hall a Ha).
  rewrite forallb_forall in Hall. specialize (Hall b Hb).
  rewrite forallb_forall in Hall. specialize (Hall c Hc).
  rewrite forallb_forall in Hall. specialize (Hall e He).
  by apply String.eqb_eq.
Qed.

Lemma iso_date_of_parse (s : string) (t : Z) :
  Date_parse s = Some t -> iso_date_of_days (t / msPerDay) = s.
Proof.
  unfold Date_parse. intros Hparse.
  rewrite <- (string_of_list_ascii_of_string s).
  destruct (list_ascii_of_string s)
    as [|y1 [|y2 [|y3 [|y4 [|s1 [|m1 [|m2 [|s2 [|d1 [|d2 [|]]]]]]]]]]];
    try discriminate.
  destruct (digit_of_ascii y1) as [a|] eqn:Hy1; [|discriminate].
  destruct (digit_of_ascii y2) as [b|] eqn:Hy2; [|discriminate].
  destruct (digit_of_ascii y3) as [c|] eqn:Hy3; [|discriminate].
  destruct (digit_of_ascii y4) as [e|] eqn:Hy4; [|discriminate].
  destruct (digit_of_ascii m1) as [f|] eqn:Hm1; [|discriminate].
  destruct (digit_of_ascii m2) as [g|] eqn:Hm2; [|discriminate].
  destruct (digit_of_ascii d1) as [h|] eqn:Hd1; [|discriminate].
  destruct (digit_of_ascii d2) as [i|] eqn:Hd2; [|discriminate].
  apply digit_of_ascii_inv in Hy1 as [Ha ->], Hy2 as [Hb ->], Hy3 as [Hc ->],
    Hy4 as [He ->], Hm1 as [Hf ->], Hm2 as [Hg ->], Hd1 as [Hh ->],
    Hd2 as [Hi ->].
  cbv zeta in Hparse.
  match type of Hparse with
  | (if ?cond then _ else _) = _ => destruct cond eqn:Hcond; [|discriminate]
  end.
  rewrite !andb_true_iff in Hcond.
  destruct Hcond as [[[[[Hs1 Hs2] _] _] _] Hcivil].
  apply Ascii.eqb_eq in Hs1 as ->. apply Ascii.eqb_eq in Hs2 as ->.
  apply bool_decide_eq_true in Hcivil.
  injection Hparse as <-.
  rewrite Z.div_mul by (unfold msPerDay; lia).
  unfold iso_date_of_days. rewrite Hcivil.
  replace ((0 <=? 1000 * a + 100 * b + 10 * c + e)
           && (1000 * a + 100 * b + 10 * c + e <=? 9999)) with true
    by (symmetry; apply andb_true_iff; split; apply Z.leb_le; lia).
  rewrite pad_four_digits, !pad_two_digits by done.
  reflexivity.
Qed.

(** X14. The date text a date-only string parses to is printed back as that
    string: [new Date(s).toISOString().split('T')[0]] is [s]. *)
Theorem Date_parse_toISODate (s : string) (t : Z) :
  Date_parse s = Some t -> toISODate t = s.
Proof. apply iso_date_of_parse. Qed.

Lemma Date_parse_toISODate_witness : toISODate 1709164800000 = "2024-02-29".
Proof. apply Date_parse_toISODate. reflexivity. Defined.

Lemma seqZ_head_last (m n : Z) :
  0 < n ->
  head (seqZ m n) = Some m /\ last (seqZ m n) = Some (m + n - 1).
Proof.
  intros Hn. split.
  - by rewrite seqZ_cons by lia.
  - rewrite last_lookup, length_seqZ.
    replace (Init.Nat.pred (Z.to_nat n)) with (Z.to_nat (n - 1)) by lia.
    rewrite lookup_seqZ_lt by lia. f_equal. lia.
Qed.

Lemma last_map {A B} (f : A -> B) (l : list A) :
  last (List.map f l) = f <$> last l.
Proof.
  induction l as [|x [|y l] IH]; [done..|].
  change (last (f x :: List.map f (y :: l)) = f <$> last (x :: y :: l)).
  by rewrite !last_cons_cons.
Qed.

Section GenerateDaysWindow.
Variable tz : Z.

(** X15. In a zone from UTC to twelve hours ahead of it, for dates whose
    local years are not among 0 to 99 and a start on or before the end, the
    entries carry the dates from the start to the end, one per day: the first
    is the start text and the last is the end text. *)
Theorem generateDays_covers_range (fuel : nat) (start end_ : string) (ts te : Z) :
  Date_parse start = Some ts ->
  Date_parse end_ = Some te ->
  ~ (0 <= (local_civil tz ts).1.1 <= 99) ->
  ~ (0 <= (local_civil tz te).1.1 <= 99) ->
  0 <= tz <= 43200000 ->
  ts <= te ->
  (Z.to_nat (te / msPerDay - ts / msPerDay + 1) < fuel)%nat ->
  exists days,
    generateDays tz fuel start end_ = Some days
    /\ List.map ItineraryDay.date days
       = List.map iso_date_of_days
           (seqZ (ts / msPerDay) (te / msPerDay - ts / msPerDay + 1))
    /\ head (List.map ItineraryDay.date days) = Some start
    /\ last (List.map ItineraryDay.date days) = Some end_.
Proof.
  intros Hstart Hend Hys Hye Htz Hle Hfuel.
  pose proof (generateDays_closed tz fuel start end_ ts te Hstart Hend) as Hclosed.
  cbv zeta in Hclosed.
  rewrite !constructed_day_local in Hclosed by done.
  rewrite !local_day_of_midnight in Hclosed by (by eapply Date_parse_midnight).
  assert (Hzone : tz / msPerDay = 0)
    by (unfold msPerDay; Z.div_mod_to_equations; lia).
  rewrite Hzone, !Z.add_0_r in Hclosed.
  specialize (Hclosed Hfuel).
  set (s := ts / msPerDay) in *. set (e := te / msPerDay) in *.
  assert (Hse : s <= e).
  { pose proof (Date_parse_midnight _ _ Hstart).
    pose proof (Date_parse_midnight _ _ Hend).
    subst s e. unfold msPerDay in *. Z.div_mod_to_equations. lia. }
  assert (Hdates :
    List.map ItineraryDay.date (List.map (day_entry tz) (seqZ s (e - s + 1)))
    = List.map iso_date_of_days (seqZ s (e - s + 1))).
  { rewrite List.map_map. apply List.map_ext. intros day.
    unfold day_entry, toISODate. cbn [ItineraryDay.date]. f_equal.
    unfold local_noon, msPerDay. Z.div_mod_to_equations. lia. }
  eexists. split; [exact Hclosed|].
  rewrite Hdates. split; [done|].
  destruct (seqZ_head_last s (e - s + 1)) as [Hhead Hlast]; [lia|].
  split.
  - rewrite seqZ_cons by lia. cbn [List.map head].
    f_equal. by apply iso_date_of_parse.
  - rewrite last_map, Hlast. cbn [fmap option_fmap option_map].
    f_equal. replace (s + (e - s + 1) - 1) with e by lia.
    by apply iso_date_of_parse.
Qed.
End GenerateDaysWindow.

Lemma generateDays_covers_range_witness :
  exists days,
    generateDays 3600000 4 "2024-02-28" "2024-03-01" = Some days
    /\ head (List.map ItineraryDay.date days) = Some "2024-02-28"
    /\ last (List.map ItineraryDay.date days) = Some "2024-03-01".
Proof.
  destruct (generateDays_covers_range 3600000 4 "2024-02-28" "2024-03-01"
              1709078400000 1709251200000) as (days & Hdays & _ & Hfirst & Hlast).
  - reflexivity.
  - reflexivity.
  - vm_compute. intros [_ Hle]. by apply Hle.
  - vm_compute. intros [_ Hle]. by apply Hle.
  - lia.
  - lia.
  - vm_compute. lia.
  - exists days. split; [exact Hdays|split; [exact Hfirst|exact Hlast]].
Defined.

(** ** More on persistence *)

(** X16. A trip list that is not empty and whose trips all pass
    [isValidTrip] is read back by the load effect of the next start exactly
    as the persist effect wrote it, provided [JSON.parse] inverts
    [JSON.stringify] on it; the first trip becomes the selected one. *)
Theorem persist_then_load JSON_parse JSON_stringify w :
  trips w <> [] ->
  Forall (fun trip => isValidTrip trip = true) (trips w) ->
  JSON_stringify (JArray (trips w)) <> EmptyString ->
  JSON_parse (JSON_stringify (JArray (trips w))) = Some (JArray (trips w)) ->
  let ls := localStorage (persistEffect JSON_stringify w) in
  exists w',
    loadEffect JSON_parse (initial ls) = Normal w'
    /\ trips w' = trips w
    /\ selectedTripId w' = (head (trips w) ≫= fun trip => prop trip "id")
    /\ localStorage w' = ls.
Proof.
  intros Hne Hvalid Htext Hparse. unfold persistEffect.
  destruct (trips w) as [|first rest] eqn:Htrips; [done|].
  assert (Hlen : (0 <? Z.of_nat (length (first :: rest))) = true).
  { apply Z.ltb_lt. cbn [length]. lia. }
  rewrite Hlen. cbn zeta. cbn [localStorage].
  unfold loadEffect. cbn [initial localStorage].
  rewrite lookup_insert_eq.
  apply String.eqb_neq in Htext. rewrite Htext. cbn [negb].
  rewrite Hparse. cbn [bind try_catch]. rewrite Hlen.
  assert (Hfilter : List.filter isValidTrip (first :: rest) = first :: rest).
  { apply filter_all. intros trip Htrip.
    rewrite Forall_forall in Hvalid. by apply Hvalid. }
  rewrite Hfilter. eexists. split; [reflexivity|]. done.
Qed.

Lemma persist_then_load_witness :
  exists w',
    loadEffect example_saved_parse
      (initial (localStorage
         (persistEffect example_saved_stringify
            {| trips := example_saved_trips;
               selectedTripId := Some (JString "trip-1");
               localStorage := ∅ |})))
    = Normal w'
    /\ trips w' = example_saved_trips.
Proof.
  destruct (persist_then_load example_saved_parse example_saved_stringify
              {| trips := example_saved_trips;
                 selectedTripId := Some (JString "trip-1");
                 localStorage := ∅ |}) as (w' & Hload & Htrips & _).
  - discriminate.
  - repeat constructor.
  - discriminate.
  - reflexivity.
  - exists w'. split; [exact Hload|exact Htrips].
Defined.

(** X17. Neither effect touches a key of [localStorage] other than
    [viajaai_trips]. *)
Theorem persistence_touches_one_key JSON_parse JSON_stringify w k :
  k <> STORAGE_KEY ->
  localStorage (persistEffect JSON_stringify w) !! k = localStorage w !! k
  /\ exists w',
       loadEffect JSON_parse w = Normal w'
       /\ localStorage w' !! k = localStorage w !! k.
Proof.
  intros Hk. split.
  - unfold persistEffect.
    destruct (0 <? Z.of_nat (length (trips w))); cbn [localStorage].
    + by rewrite lookup_insert_ne.
    + by rewrite lookup_delete_ne.
  - unfold loadEffect.
    destruct (localStorage w !! STORAGE_KEY) as [text|]; [|by eexists].
    destruct (negb (String.eqb text EmptyString)); [|by eexists].
    destruct (JSON_parse text) as [[| | | |entries|]|]; cbn [bind try_catch];
      try by eexists.
    + destruct (0 <? Z.of_nat (length entries)); [|by eexists].
      destruct (List.filter isValidTrip entries); by eexists.
    + eexists. split; [reflexivity|]. cbn [localStorage].
      by rewrite lookup_delete_ne.
Qed.

Lemma persistence_touches_one_key_witness :
  localStorage
    (persistEffect example_saved_stringify
       {| trips := [];
          selectedTripId := Some JNull;
          localStorage := {[ "demo_auth_session" := "true" ]} |})
    !! "demo_auth_session"
  = Some "true".
Proof.
  refine (eq_trans
            (proj1 (persistence_touches_one_key example_saved_parse
                      example_saved_stringify _ "demo_auth_session" _)) _).
  - discriminate.
  - reflexivity.
Defined.

(** X18. A stored text that parses, but not to an array with an entry that
    passes [isValidTrip], is neither loaded nor removed: the load effect
    leaves the state and the storage as they are. *)
Theorem loadEffect_nothing_valid JSON_parse w text v :
  localStorage w !! STORAGE_KEY = Some text ->
  JSON_parse text = Some v ->
  (forall entries, v = JArray entries -> List.filter isValidTrip entries = []) ->
  loadEffect JSON_parse w = Normal w.
Proof.
  intros Hls Hparse Hnone. unfold loadEffect. rewrite Hls.
  destruct (negb (String.eqb text EmptyString)); [|done].
  rewrite Hparse. cbn [bind try_catch].
  destruct v as [| | | |entries|]; try done.
  destruct (0 <? Z.of_nat (length entries)); [|done].
  by rewrite (Hnone entries).
Qed.

Lemma loadEffect_nothing_valid_witness :
  loadEffect (fun _ => Some (JObject []))
    (initial {[ STORAGE_KEY := "{}" ]})
  = Normal (initial {[ STORAGE_KEY := "{}" ]}).
Proof.
  apply (loadEffect_nothing_valid _ _ "{}" (JObject [])).
  - reflexivity.
  - reflexivity.
  - discriminate.
Defined.

(** ** More on the assistant bridge *)

Section ChatPanelBatches.
Context {State : Type}.
Variable onAddActivity : option json -> object -> State -> State.
Variable onUpdateActivity :
  option json -> option json -> object -> State -> State.
Variable onRemoveActivity : option json -> option json -> State -> State.
Variable tripDetails : State -> string.
Variable fetch_json : string -> State -> completion (option json) * State.

Abbreviation tool :=
  (executeTool onAddActivity onUpdateActivity onRemoveActivity tripDetails
     fetch_json).
Abbreviation tools_loop :=
  (executeTools_loop onAddActivity onUpdateActivity onRemoveActivity
     tripDetails fetch_json).
Abbreviation tools :=
  (executeTools onAddActivity onUpdateActivity onRemoveActivity tripDetails
     fetch_json).
Abbreviation exchange_rate := (get_exchange_rate fetch_json).

Lemma executeTools_loop_acc calls responses s :
  tools_loop calls responses s
  = (responses ++ (tools calls s).1, (tools calls s).2).
Proof.
  unfold executeTools.
  revert responses s. induction calls as [|call calls IH]; intros responses s.
  - cbn [executeTools_loop fst snd]. by rewrite app_nil_r.
  - cbn [executeTools_loop]. destruct (tool call s) as [r s'].
    rewrite (IH (responses ++ [r])), (IH ([] ++ [r])).
    cbn [fst snd]. by rewrite <- !app_assoc.
Qed.

Lemma executeTools_loop_app calls1 calls2 responses s :
  tools_loop (calls1 ++ calls2) responses s
  = tools_loop calls2 (tools_loop calls1 responses s).1
      (tools_loop calls1 responses s).2.
Proof.
  revert responses s. induction calls1 as [|call calls1 IH]; intros responses s.
  - reflexivity.
  - cbn [app executeTools_loop]. destruct (tool call s) as [r s']. apply IH.
Qed.

(** X19. Running a batch is running its first part and then the rest from
    the state the first part left: the responses are those of the two parts
    one after the other. *)
Theorem executeTools_app calls1 calls2 s :
  let executeTools :=
    executeTools onAddActivity onUpdateActivity onRemoveActivity tripDetails
      fetch_json in
  executeTools (calls1 ++ calls2) s
  = ((executeTools calls1 s).1
       ++ (executeTools calls2 (executeTools calls1 s).2).1,
     (executeTools calls2 (executeTools calls1 s).2).2).
Proof.
  cbv zeta. unfold executeTools at 1.
  rewrite executeTools_loop_app, executeTools_loop_acc.
  rewrite (executeTools_loop_acc calls1 []). reflexivity.
Qed.

(** X20. A call of one of the three changing tools whose arguments are
    missing ([undefined] or [null]) calls no callback: the state is left as
    it is and the response carries the text of the error that was caught.
    A call of [get_exchange_rate] without arguments makes no request and is
    answered with the connection-failure text. *)
Theorem executeTool_missing_args call s :
  let tool :=
    executeTool onAddActivity onUpdateActivity onRemoveActivity tripDetails
      fetch_json in
  call_args call = None \/ call_args call = Some JNull ->
  (forall k, k ∈ ["add_activity"; "update_activity"; "remove_activity"] ->
     call_name call = Some (JString k) ->
     exists message,
       tool call s
       = ({| response_id := call_id call;
             response_name := call_name call;
             response_result := "Erro ao executar: " +:+ message |}, s))
  /\ (call_name call = Some (JString "get_exchange_rate") ->
      tool call s
      = ({| response_id := call_id call;
            response_name := call_name call;
            response_result := "Falha na conexão com API de câmbio." |}, s)).
Proof.
  intros tool Hargs. subst tool. split.
  - intros k Hk Hname. unfold executeTool. rewrite Hname.
    repeat (apply elem_of_cons in Hk as [->|Hk]);
      [..|by apply not_elem_of_nil in Hk];
      destruct Hargs as [->| ->]; eexists; reflexivity.
  - intros Hname. unfold executeTool. rewrite Hname.
    destruct Hargs as [->| ->]; reflexivity.
Qed.

(** X21. For [get_exchange_rate] with arguments, the request goes to the
    address of the base currency, USD when none is given.  When it is
    rejected the answer is the connection-failure text.  When the body that
    arrives is falsy or has no truthy [rates], or when [rates] is an object
    without a truthy member for the target currency (BRL when none is
    given), this being no name an object inherits, the answer is the
    rate-failure text. *)
Theorem get_exchange_rate_failures args s :
  args <> None -> args <> Some JNull ->
  let base := or_default (prop_of args "baseCurrency") "USD" in
  let target := or_default (prop_of args "targetCurrency") "BRL" in
  let url := "https://open.er-api.com/v6/latest/" +:+ ToString base in
  (forall message s',
     fetch_json url s = (Throw message, s') ->
     exchange_rate args s = ("Falha na conexão com API de câmbio.", s'))
  /\ (forall data s',
     fetch_json url s = (Normal data, s') ->
     truthy data = false \/ truthy (prop_of data "rates") = false ->
     exchange_rate args s = ("Erro ao obter taxa de câmbio.", s'))
  /\ (forall data members s',
     fetch_json url s = (Normal data, s') ->
     prop_of data "rates" = Some (JObject members) ->
     ToString target ∉ Object_prototype_keys ->
     truthy (member (ToString target) members) = false ->
     exchange_rate args s = ("Erro ao obter taxa de câmbio.", s')).
Proof.
  intros Hundefined Hnull base target url. subst base target url.
  assert (Hget : forall k, get args k = Normal (prop_of args k)).
  { intros k. by destruct args as [[| | | | |]|]. }
  split; [|split].
  - intros message s' Hfetch. unfold get_exchange_rate.
    rewrite !Hget. cbn [bind]. by rewrite Hfetch.
  - intros data s' Hfetch Hfalsy. unfold get_exchange_rate.
    rewrite !Hget. cbn [bind]. rewrite Hfetch.
    destruct Hfalsy as [-> | ->]; [done|]. by rewrite andb_false_r.
  - intros data members s' Hfetch Hrates _ Hrate. unfold get_exchange_rate.
    rewrite !Hget. cbn [bind]. rewrite Hfetch, Hrates.
    cbn [prop_of prop]. rewrite Hrate. by rewrite andb_false_r.
Qed.
End ChatPanelBatches.

Lemma executeTool_missing_args_witness :
  exists message,
    executeTool recording_add recording_update recording_remove
      (fun _ => "{}") failing_fetch
      {| call_id := Some (JString "c1");
         call_name := Some (JString "remove_activity");
         call_args := None |} []
    = ({| response_id := Some (JString "c1");
          response_name := Some (JString "remove_activity");
          response_result := "Erro ao executar: " +:+ message |},
       []).
Proof.
  apply (proj1 (executeTool_missing_args recording_add recording_update
                  recording_remove (fun _ => "{}") failing_fetch
                  {| call_id := Some (JString "c1");
                     call_name := Some (JString "remove_activity");
                     call_args := None |} [] (or_introl eq_refl)))
    with (k := "remove_activity").
  - do 2 apply list_elem_of_further. apply list_elem_of_here.
  - reflexivity.
Defined.

Lemma get_exchange_rate_failures_witness :
  get_exchange_rate failing_fetch (Some (JObject [])) ([] : list string)
  = ("Falha na conexão com API de câmbio.", [])
  /\ get_exchange_rate euro_fetch (Some (JObject [])) []
     = ("Erro ao obter taxa de câmbio.",
        ["https://open.er-api.com/v6/latest/USD"]).
Proof.
  split.
  - refine (proj1 (get_exchange_rate_failures failing_fetch
                     (Some (JObject [])) [] _ _) "Failed to fetch" [] _).
    + discriminate.
    + discriminate.
    + reflexivity.
  - refine (proj2 (proj2 (get_exchange_rate_failures euro_fetch
                            (Some (JObject [])) [] _ _))
              (Some (JObject [("rates", JObject [("EUR", JNumber 1)])]))
              [("EUR", JNumber 1)] _ _ _ _ _).
    + discriminate.
    + discriminate.
    + reflexivity.
    + reflexivity.
    + intros Hin. unfold Object_prototype_keys in Hin.
      repeat (apply elem_of_cons in Hin as [Hin|Hin]; [discriminate|]).
      by apply not_elem_of_nil in Hin.
    + reflexivity.
Defined.

(** ** The map of a trip *)

Lemma push_points_omap index day points :
  push_points index day points
  = points ++ omap (map_point index) (ItineraryDay.activities day).
Proof.
  unfold push_points.
  revert points.
  induction (ItineraryDay.activities day) as [|act acts IH]; intros points.
  - cbn [fold_left omap]. by rewrite app_nil_r.
  - cbn [fold_left]. rewrite IH. cbn [omap list_omap]. unfold map_point at 2.
    destruct (Activity.lat act) as [lat|]; [|done].
    destruct (Activity.lng act) as [lng|]; [|done].
    destruct (number_truthy (Some lat) && number_truthy (Some lng)); [|done].
    by rewrite <- app_assoc.
Qed.

Lemma map_point_Some index act p :
  map_point index act = Some p <->
  Activity.lat act = Some (MapPoint.lat p)
  /\ Activity.lng act = Some (MapPoint.lng p)
  /\ MapPoint.lat p <> 0 /\ MapPoint.lng p <> 0
  /\ MapPoint.title p = Activity.title act
  /\ MapPoint.dayIndex p = Z.of_nat index + 1.
Proof.
  unfold map_point, number_truthy. split.
  - destruct (Activity.lat act) as [lat|]; [|done].
    destruct (Activity.lng act) as [lng|]; [|done].
    destruct (lat =? 0) eqn:Hlat; [done|].
    destruct (lng =? 0) eqn:Hlng; [done|].
    cbn [negb andb]. intros [= <-]. cbn.
    apply Z.eqb_neq in Hlat, Hlng. done.
  - intros (-> & -> & Hlat & Hlng & Htitle & Hindex).
    apply Z.eqb_neq in Hlat, Hlng. rewrite Hlat, Hlng. cbn [negb andb].
    destruct p. cbn in *. by subst.
Qed.

Lemma points_fold_elem_of days acc n p :
  p ∈ (fold_left (fun acc day => (push_points acc.2 day acc.1, S acc.2))
         days (acc, n)).1
  <-> p ∈ acc
      \/ exists (i : nat) day act,
           days !! i = Some day
           /\ act ∈ ItineraryDay.activities day
           /\ map_point (n + i) act = Some p.
Proof.
  revert acc n. induction days as [|day days IH]; intros acc n.
  - cbn [fold_left fst]. split; [by left|].
    intros [H|(i & day & act & H & _)]; [done|]. by rewrite lookup_nil in H.
  - cbn [fold_left fst snd]. rewrite IH, push_points_omap, elem_of_app.
    rewrite list_elem_of_omap. split.
    + intros [[H|(act & Hact & Hp)]|(i & day' & act & Hday & Hact & Hp)].
      * by left.
      * right. exists 0%nat, day, act. by rewrite Nat.add_0_r.
      * right. exists (S i), day', act.
        by replace (n + S i)%nat with (S n + i)%nat by lia.
    + intros [H|(i & day' & act & Hday & Hact & Hp)]; [by left; left|].
      destruct i as [|i].
      * injection Hday as <-. left. right. exists act.
        by rewrite Nat.add_0_r in Hp.
      * right. exists i, day', act.
        by replace (S n + i)%nat with (n + S i)%nat by lia.
Qed.

(** X24. The points of the map are exactly the activities of the trip that
    have a latitude and a longitude, both different from 0, each with its
    title and with the number of its day counted from 1. *)
Theorem TripMap_points_spec trip p :
  p ∈ TripMap_points trip <->
  exists (i : nat) day act,
    Trip.days trip !! i = Some day
    /\ act ∈ ItineraryDay.activities day
    /\ Activity.lat act = Some (MapPoint.lat p)
    /\ Activity.lng act = Some (MapPoint.lng p)
    /\ MapPoint.lat p <> 0 /\ MapPoint.lng p <> 0
    /\ MapPoint.title p = Activity.title act
    /\ MapPoint.dayIndex p = Z.of_nat i + 1.
Proof.
  unfold TripMap_points. rewrite points_fold_elem_of. split.
  - intros [H|(i & day & act & Hday & Hact & Hp)];
      [by apply not_elem_of_nil in H|].
    exists i, day, act. apply map_point_Some in Hp. done.
  - intros (i & day & act & Hday & Hact & Hp). right.
    exists i, day, act. split; [done|]. split; [done|].
    by apply map_point_Some.
Qed.

(** X25. When the placeholder is shown, that is when no activity has a
    latitude that counts, there is no point to put on the map. *)
Theorem TripMap_placeholder_no_points trip :
  TripMap_placeholder trip = true -> TripMap_points trip = [].
Proof.
  intros Hplaceholder. apply elem_of_nil_inv. intros p Hp.
  unfold TripMap_points in Hp. apply points_fold_elem_of in Hp.
  destruct Hp as [Hp|(i & day & act & Hday & Hact & Hp)];
    [by apply not_elem_of_nil in Hp|].
  unfold TripMap_placeholder in Hplaceholder.
  rewrite forallb_forall in Hplaceholder.
  apply list_elem_of_lookup_2, list_elem_of_In in Hday.
  specialize (Hplaceholder day Hday). rewrite forallb_forall in Hplaceholder.
  apply list_elem_of_In in Hact. specialize (Hplaceholder act Hact).
  unfold map_point in Hp.
  destruct (Activity.lat act) as [lat|]; [|done].
  destruct (Activity.lng act) as [lng|]; [|done].
  apply negb_true_iff in Hplaceholder. rewrite Hplaceholder in Hp. done.
Qed.

Lemma TripMap_placeholder_no_points_witness :
  TripMap_points example_trip = [].
Proof. apply TripMap_placeholder_no_points. reflexivity. Defined.

(** ** Configuration and the demo sign-in *)

(** X26. The configured key is never the empty text, so the second test of
    [isDemoMode] never decides: demo mode is on exactly when the key is the
    placeholder, which it is when neither environment has a value for it,
    and a value of [import.meta.env] wins over one of [process.env]. *)
Theorem isDemoMode_spec meta_env process_env :
  API_KEY meta_env process_env <> EmptyString
  /\ isDemoMode meta_env process_env
     = String.eqb (API_KEY meta_env process_env) "SUA_API_KEY_AQUI"
  /\ (env_value meta_env "FIREBASE_API_KEY" = None ->
      env_value process_env "FIREBASE_API_KEY" = None ->
      isDemoMode meta_env process_env = true)
  /\ (forall v,
      env_value meta_env "FIREBASE_API_KEY" = Some v ->
      API_KEY meta_env process_env = v).
Proof.
  assert (Hvalue : forall env key v, env_value env key = Some v -> v <> EmptyString).
  { intros env key v. unfold env_value.
    destruct env as [vars|]; [|done].
    destruct (vars !! key) as [v'|]; [|done].
    destruct (String.eqb v' EmptyString) eqn:Hv'; [done|].
    intros [= <-]. by apply String.eqb_neq. }
  assert (Hkey : API_KEY meta_env process_env <> EmptyString).
  { unfold API_KEY, getEnv.
    destruct (env_value meta_env _) eqn:Hmeta; [by eapply Hvalue|].
    destruct (env_value process_env _) eqn:Hprocess; [by eapply Hvalue|].
    discriminate. }
  split; [exact Hkey|]. split; [|split].
  - unfold isDemoMode. apply String.eqb_neq in Hkey. rewrite Hkey.
    apply orb_false_r.
  - intros Hmeta Hprocess. unfold isDemoMode, API_KEY, getEnv.
    by rewrite Hmeta, Hprocess.
  - intros v Hmeta. unfold API_KEY, getEnv. by rewrite Hmeta.
Qed.

Lemma remove_first_app_new callback listeners :
  callback ∉ listeners ->
  DemoAuth.remove_first callback (listeners ++ [callback]) = listeners.
Proof.
  induction listeners as [|cb listeners IH]; intros Hnew.
  - cbn. by rewrite Nat.eqb_refl.
  - apply not_elem_of_cons in Hnew as [Hne Hnew]. cbn.
    destruct (Nat.eqb cb callback) eqn:Heq.
    + apply Nat.eqb_eq in Heq. congruence.
    + by rewrite IH.
Qed.

(** X27. The demo session survives in [localStorage]: a subscription made
    after a demo sign-in is told the demo user, and one made after a logout
    is told [null], whichever listeners were registered at the time. *)
Theorem DemoAuth_session callback st :
  (DemoAuth.subscribeToAuthChanges callback (DemoAuth.signInWithGoogle st)).2
  = (callback, true)
  /\ (DemoAuth.subscribeToAuthChanges callback (DemoAuth.logout st)).2
     = (callback, false).
Proof.
  unfold DemoAuth.subscribeToAuthChanges, DemoAuth.signInWithGoogle,
    DemoAuth.logout, DemoAuth.notifyMockListeners.
  cbn [DemoAuth.localStorage snd]. split.
  - by rewrite lookup_insert_eq.
  - by rewrite lookup_delete_eq.
Qed.

(** X28. The function returned by a subscription undoes it: for a callback
    that was not registered before, the state is as it was, and the callback
    hears of no later sign-in or logout. *)
Theorem DemoAuth_unsubscribe callback st :
  callback ∉ DemoAuth.mockListeners st ->
  let st' :=
    DemoAuth.unsubscribe callback
      (DemoAuth.subscribeToAuthChanges callback st).1 in
  st' = st
  /\ forall user user',
       (callback, user')
         ∈ DemoAuth.notified (DemoAuth.notifyMockListeners user st') ->
       (callback, user') ∈ DemoAuth.notified st.
Proof.
  intros Hnew st'.
  assert (Hst' : st' = st).
  { subst st'. unfold DemoAuth.unsubscribe, DemoAuth.subscribeToAuthChanges.
    cbn [fst DemoAuth.mockListeners DemoAuth.localStorage DemoAuth.notified].
    rewrite remove_first_app_new by done. by destruct st. }
  split; [exact Hst'|]. rewrite Hst'. clear st' Hst'.
  intros user user'. unfold DemoAuth.notifyMockListeners.
  cbn [DemoAuth.notified]. rewrite elem_of_app, list_elem_of_fmap.
  intros [H|(cb & [= <- _] & Hcb)]; done.
Qed.

Lemma DemoAuth_unsubscribe_witness :
  DemoAuth.unsubscribe 2
    (DemoAuth.subscribeToAuthChanges 2 (DemoAuth.mk [1%nat] ∅ [])).1
  = DemoAuth.mk [1%nat] ∅ [].
Proof.
  refine (proj1 (DemoAuth_unsubscribe 2 (DemoAuth.mk [1%nat] ∅ []) _)).
  cbn. intros H. apply elem_of_cons in H as [H|H]; [discriminate|].
  by apply not_elem_of_nil in H.
Defined.

(** X29. Signing in or out in demo mode changes no key of [localStorage]
    other than [demo_auth_session]; the stored trips, in particular, stay
    as they are. *)
Theorem DemoAuth_touches_one_key user st k :
  k <> DemoAuth.SESSION_KEY ->
  DemoAuth.localStorage (DemoAuth.notifyMockListeners user st) !! k
  = DemoAuth.localStorage st !! k.
Proof.
  intros Hk. unfold DemoAuth.notifyMockListeners. cbn [DemoAuth.localStorage].
  destruct user.
  - by rewrite lookup_insert_ne.
  - by rewrite lookup_delete_ne.
Qed.

Lemma DemoAuth_touches_one_key_witness :
  DemoAuth.localStorage
    (DemoAuth.logout
       (DemoAuth.mk [] {[ STORAGE_KEY := example_saved_text ]} []))
    !! STORAGE_KEY
  = Some example_saved_text.
Proof.
  refine (eq_trans (DemoAuth_touches_one_key false _ STORAGE_KEY _) _).
  - discriminate.
  - reflexivity.
Defined.

(** ** The handlers on the example trip *)

Ltac example_days trip Htrip Hday Hact :=
  apply list_elem_of_singleton in Htrip as ->;
  cbn in Hday;
  repeat (apply elem_of_cons in Hday as [->|Hday]);
  [..|by apply not_elem_of_nil in Hday];
  cbn in Hact;
  repeat (apply elem_of_cons in Hact as [->|Hact]);
  try (by apply not_elem_of_nil in Hact).

Lemma handleAddActivity_adds_one_witness :
  exists trips',
    handleAddActivity compareCodeUnits (Some "trip-1") "a9" "day-1" None
      [example_trip]
    = Normal trips'
    /\ itinerary_related (Some "trip-1") "day-1"
         (fun old new => new ≡ₚ old ++ [newActivity "a9" None])
         [example_trip] trips'.
Proof.
  destruct (proj2 (handleAddActivity_adds_one compareCodeUnits (Some "trip-1")
                     "a9" "day-1" None [example_trip])
              example_trip_sorted I) as [trips' Hadd].
  exists trips'. split; [exact Hadd|].
  exact (proj1 (handleAddActivity_adds_one compareCodeUnits (Some "trip-1")
                  "a9" "day-1" None [example_trip]) trips' Hadd).
Defined.

Lemma handleUpdateActivity_keeps_activities_witness :
  exists trips',
    handleUpdateActivity compareCodeUnits (Some "trip-1") "day-1" (Some "a1")
      PartialActivity.empty [example_trip]
    = Normal trips'.
Proof.
  refine (proj2 (handleUpdateActivity_keeps_activities compareCodeUnits
                   (Some "trip-1") "day-1" (Some "a1") PartialActivity.empty
                   [example_trip]) example_trip_sorted _).
  discriminate.
Defined.

Lemma handleDeleteActivity_absent_witness :
  handleDeleteActivity (Some "trip-1") "day-1" (Some "a9") [example_trip]
  = [example_trip].
Proof.
  apply handleDeleteActivity_absent.
  intros trip day act Htrip _ Hday _ Hact.
  example_days trip Htrip Hday Hact; discriminate.
Defined.

Lemma add_then_delete_witness :
  exists trips',
    handleAddActivity compareCodeUnits (Some "trip-1") "a9" "day-1" None
      [example_trip]
    = Normal trips'
    /\ handleDeleteActivity (Some "trip-1") "day-1" (Some "a9") trips'
       = [example_trip].
Proof.
  destruct (add_then_delete compareCodeUnits (Some "trip-1") "a9" "day-1" None
              [example_trip]) as [Hround Hreturns].
  - apply example_trip_sorted.
  - intros trip day act Htrip _ Hday _ Hact.
    example_days trip Htrip Hday Hact; discriminate.
  - destruct (Hreturns I) as [trips' Hadd].
    exists trips'. split; [exact Hadd|exact (Hround trips' Hadd)].
Defined.

Lemma add_then_update_witness :
  exists trips' trips'',
    handleAddActivity compareCodeUnits (Some "trip-1") "a9" "day-1" None
      [example_trip]
    = Normal trips'
    /\ handleUpdateActivity compareCodeUnits (Some "trip-1") "day-1"
         (Some "a9") PartialActivity.empty trips'
       = Normal trips''.
Proof.
  refine (proj2 (add_then_update compareCodeUnits compareCodeUnits_total
                   (Some "trip-1") "a9" "day-1" None
                   PartialActivity.empty [example_trip] _)
            example_trip_sorted I _).
  - intros trip day act Htrip _ Hday _ Hact.
    example_days trip Htrip Hday Hact; discriminate.
  - discriminate.
Defined.

Lemma handleAddActivity_cost_witness :
  exists trips',
    handleAddActivity compareCodeUnits (Some "trip-1") "a9" "day-1" None
      [example_trip]
    = Normal trips'
    /\ List.map (fun trip => calculateTotalCost (Some trip)) trips' = [100].
Proof.
  destruct (proj2 (handleAddActivity_cost compareCodeUnits (Some "trip-1")
                     "a9" "day-1" None [example_trip])
              example_trip_sorted I) as [trips' Hadd].
  exists trips'. split; [exact Hadd|].
  exact (proj1 (handleAddActivity_cost compareCodeUnits (Some "trip-1")
                  "a9" "day-1" None [example_trip]) trips' Hadd).
Defined.

Lemma handlers_without_selection_witness :
  handleDeleteActivity (Some "trip-9") "day-1" (Some "a1") [example_trip]
  = [example_trip]
  /\ selectedTrip [example_trip] (Some "trip-9") = Some example_trip.
Proof.
  destruct (handlers_without_selection compareCodeUnits (Some "trip-9") "a9"
              "day-1" (Some "a1") None PartialActivity.empty [example_trip])
    as (_ & _ & Hdelete & Hshown).
  - intros trip Htrip. apply list_elem_of_singleton in Htrip as ->.
    reflexivity.
  - split; [exact Hdelete|exact Hshown].
Defined.

Lemma handleSaveActivityUI_unchanged_witness :
  handleSaveActivityUI compareCodeUnits (Some "trip-1")
    (mkKeys true true true true false false true false true) "day-1"
    (example_activity "a1" "09:00" (Some 100)) [example_trip]
  = Normal [example_trip].
Proof.
  apply handleSaveActivityUI_unchanged.
  - apply example_trip_sorted.
  - intros trip day act Htrip _ Hday _ Hact.
    example_days trip Htrip Hday Hact; [reflexivity|discriminate].
Defined.

Lemma app_run_invariant_witness :
  exists st,
    app_run compareCodeUnits 0
      [ CreateTrip 1700000000000 1700000000001
          {| NewTripData.destination := "Lisboa";
             NewTripData.title := EmptyString;
             NewTripData.startDate := "2024-01-10";
             NewTripData.endDate := "2024-01-11";
             NewTripData.lat := None;
             NewTripData.lng := None |};
        Itinerary (Some "trip-1700000000000")
          (AddActivity "a1" "day-1704888000000" None);
        SelectTrip 0 ]
      App.initial
    = Normal st
    /\ app_invariant compareCodeUnits st.
Proof.
  destruct (app_run_invariant compareCodeUnits compareCodeUnits_total
              compareCodeUnits_trans 0
              [ CreateTrip 1700000000000 1700000000001
                  {| NewTripData.destination := "Lisboa";
                     NewTripData.title := EmptyString;
                     NewTripData.startDate := "2024-01-10";
                     NewTripData.endDate := "2024-01-11";
                     NewTripData.lat := None;
                     NewTripData.lng := None |};
                Itinerary (Some "trip-1700000000000")
                  (AddActivity "a1" "day-1704888000000" None);
                SelectTrip 0 ])
    as (st & Hrun & Hinv & _).
  - repeat constructor.
  - exists st. split; [exact Hrun|exact Hinv].
Defined.

Lemma isDemoMode_spec_witness : isDemoMode (Some ∅) None = true.
Proof.
  exact (proj1 (proj2 (proj2 (isDemoMode_spec (Some ∅) None)))
           eq_refl eq_refl).
Defined.
